(** * MongoEngine (closeio fork): the query/update compiler and the document
      persistence entry points, embedded in Rocq.

    Sources embedded here:
    - [mongoengine/queryset/transform.py]: [query], [update], [_geo_operator],
      [_infer_geometry];
    - [mongoengine/document.py]: [Document.save], [Document.update],
      [Document.to_dbref] and the helpers they call.
    The change tracker and the delta engine ([mongoengine/base]) are not
    among the sources; module [Delta] models them from the specification.

    Python values are a tree type [value]; dictionaries are association
    lists.  The sources are Python 2: a [bson.SON] keeps its keys in insertion
    order (the compiler relies on it for [$maxDistance]), a plain [dict] yields
    them in an order the program does not choose.  The list of a plain
    dictionary is therefore one of its possible iteration orders, and what
    the program fixes about it is its content as a mapping ([same_mapping]).
    Exceptions are the [Raise] branch of [result]. *)

From Stdlib Require Import List String Ascii ZArith Bool Arith Lia.
From Stdlib Require Import NArith Permutation Sorted.
Import ListNotations.
Open Scope string_scope.
Open Scope list_scope.

(* ================================================================== *)
(** * Python values and exceptions *)
(* ================================================================== *)

#[local] Set Warnings "-register-all".

Inductive value : Type :=
| VNone
| VBool (b : bool)
| VInt (n : Z)
| VStr (s : string)
| VList (l : list value)
| VTuple (l : list value)
| VSet (l : list value)
| VDict (d : list (string * value)).

(** A dictionary with string keys.  For a [bson.SON] the list is the
    insertion order.  For a plain [dict] of Python 2 the list is the order in
    which this dictionary happens to be iterated: the interpreter derives it
    from the hashes of the keys, so only lookups ([Dict.get]) are determined
    by the program, not the place of a key among the others. *)
Definition dict := list (string * value).

(** The exception classes the embedded code can raise.  Messages are left
    out; the class is what callers and tests observe. *)
Inductive exn : Type :=
| InvalidQueryError
| OperationError
| NotImplementedError
| IndexError
| KeyError
| TypeError
| AttributeError
| UnboundLocalError
| ValueError.

Inductive result (A : Type) : Type :=
| Ok (a : A)
| Raise (e : exn).
Arguments Ok {A} a.
Arguments Raise {A} e.

Definition bind {A B : Type} (r : result A) (k : A -> result B) : result B :=
  match r with
  | Ok a => k a
  | Raise e => Raise e
  end.

Notation "x <- e ;; k" := (bind e (fun x => k))
  (at level 61, e at next level, right associativity).
Notation "' p <- e ;; k" := (bind e (fun p => k))
  (at level 61, p pattern, e at next level, right associativity).

(** Sequencing of a fallible step over a list, left to right: the model of a
    [for] loop whose body may raise. *)
Fixpoint foldM {S A : Type} (step : S -> A -> result S) (l : list A) (s : S)
  : result S :=
  match l with
  | [] => Ok s
  | a :: l' => s' <- step s a ;; foldM step l' s'
  end.

(** A fallible function applied to each element in turn; the first exception
    ends the traversal. *)
Fixpoint mapM {A B : Type} (f : A -> result B) (l : list A) : result (list B) :=
  match l with
  | [] => Ok []
  | a :: l' => b <- f a ;; bs <- mapM f l' ;; Ok (b :: bs)
  end.

(* ================================================================== *)
(** * Strings: [split], [isdigit], [join], [in] *)
(* ================================================================== *)

Module Str.

(** [key.split('__')]: cut at each occurrence of two underscores, scanning
    from the left without overlap; [acc] is the segment read so far. *)
Fixpoint split_from (acc s : string) : list string :=
  match s with
  | EmptyString => [acc]
  | String c s' =>
      match s' with
      | String c' rest =>
          if (Ascii.eqb c "_" && Ascii.eqb c' "_")%bool
          then acc :: split_from EmptyString rest
          else split_from (acc ++ String c EmptyString)%string s'
      | EmptyString => [(acc ++ String c EmptyString)%string]
      end
  end.

Definition split (key : string) : list string := split_from EmptyString key.

Definition is_digit_char (c : ascii) : bool :=
  let n := nat_of_ascii c in ((48 <=? n)%nat && (n <=? 57)%nat)%bool.

Fixpoint all_digits (s : string) : bool :=
  match s with
  | EmptyString => true
  | String c s' => is_digit_char c && all_digits s'
  end.

(** [str.isdigit()]: at least one character, all of them decimal digits. *)
Definition isdigit (s : string) : bool :=
  match s with
  | EmptyString => false
  | _ => all_digits s
  end.

(** ['.'.join(parts)] *)
Definition join (sep : string) (parts : list string) : string :=
  String.concat sep parts.

(** [sub in s] for strings. *)
Fixpoint contains (sub s : string) : bool :=
  String.prefix sub s ||
  match s with
  | EmptyString => false
  | String _ s' => contains sub s'
  end.

(** [x in (a, b, ...)] for a tuple of strings. *)
Definition mem (x : string) (l : list string) : bool :=
  existsb (String.eqb x) l.

End Str.

(* ================================================================== *)
(** * Dictionaries and lists, with Python's semantics *)
(* ================================================================== *)

Module Dict.

Fixpoint get (k : string) (d : dict) : option value :=
  match d with
  | [] => None
  | (k', v) :: d' => if String.eqb k k' then Some v else get k d'
  end.

(** [k in d] *)
Definition has (k : string) (d : dict) : bool :=
  match get k d with Some _ => true | None => false end.

(** [d[k] = v]: an existing key keeps its place, a new key goes last (the
    place is that of a [SON]; in a plain dictionary it means nothing). *)
Fixpoint set (k : string) (v : value) (d : dict) : dict :=
  match d with
  | [] => [(k, v)]
  | (k', v') :: d' =>
      if String.eqb k k' then (k, v) :: d' else (k', v') :: set k v d'
  end.

(** [del d[k]] and [d.pop(k, None)] (the popped value is not used). *)
Definition remove (k : string) (d : dict) : dict :=
  filter (fun kv => negb (String.eqb k (fst kv))) d.

(** [d.update(other)] for a mapping [other]. *)
Definition update (d other : dict) : dict :=
  fold_left (fun acc kv => set (fst kv) (snd kv) acc) other d.

Definition keys (d : dict) : list string := map fst d.

End Dict.

(** [for v in value]: the elements a Python iteration yields. *)
Definition iterate (v : value) : result (list value) :=
  match v with
  | VList l | VTuple l | VSet l => Ok l
  | VDict d => Ok (map (fun kv => VStr (fst kv)) d)
  | VStr s => Ok (map (fun c => VStr (String c EmptyString)) (list_ascii_of_string s))
  | VNone | VBool _ | VInt _ => Raise TypeError
  end.

(** One element of an iterable handed to [dict.update]: it is iterated
    itself and must yield exactly two items, the key and the value
    ([ValueError] for any other length, [TypeError] if it cannot be
    iterated).  Keys of the model's dictionaries are strings, as the keys of
    a BSON document are: a key that is no string is refused with the
    [TypeError] Python has for an unhashable key. *)
Definition pair_of (e : value) : result (string * value) :=
  items <- iterate e ;;
  match items with
  | [VStr k; v] => Ok (k, v)
  | [_; _] => Raise TypeError
  | _ => Raise ValueError
  end.

(** [d.update(value)] where [value] is whatever the caller passed.  A
    mapping is merged.  Any other argument is iterated as a sequence of
    key/value pairs: an empty string, list, tuple or set changes nothing, a
    malformed element raises, and what cannot be iterated is a [TypeError].
    An exception leaves the compilers at once, so the pairs a failing call
    had already stored are never seen. *)
Definition dict_update_value (d : dict) (v : value) : result dict :=
  match v with
  | VDict other => Ok (Dict.update d other)
  | _ =>
      elements <- iterate v ;;
      pairs <- mapM pair_of elements ;;
      Ok (Dict.update d pairs)
  end.

(** [l[-1]]: [IndexError] on the empty list. *)
Definition getitem_last {A : Type} (l : list A) : result A :=
  match rev l with
  | [] => Raise IndexError
  | x :: _ => Ok x
  end.

(** [l.insert(i, x)] for [0 <= i]: past the end it appends. *)
Definition list_insert {A : Type} (i : nat) (x : A) (l : list A) : list A :=
  firstn i l ++ x :: skipn i l.

(** [value[0]] *)
Definition getitem0 (v : value) : result value :=
  match v with
  | VList (x :: _) | VTuple (x :: _) => Ok x
  | VList [] | VTuple [] => Raise IndexError
  | VStr (String c _) => Ok (VStr (String c EmptyString))
  | VStr EmptyString => Raise IndexError
  | VDict _ => Raise KeyError            (* keys are strings, never [0] *)
  | VSet _ | VNone | VBool _ | VInt _ => Raise TypeError
  end.

(** [value is None] *)
Definition is_none (v : value) : bool :=
  match v with VNone => true | _ => false end.

(** [isinstance(value, dict)] ([SON] is a subclass of [dict]). *)
Definition is_dict (v : value) : bool :=
  match v with VDict _ => true | _ => false end.

(** Truth value of a Python object ([if x:], [not x]). *)
Definition truthy (v : value) : bool :=
  match v with
  | VNone => false
  | VBool b => b
  | VInt n => negb (n =? 0)%Z
  | VStr s => negb (String.eqb s "")
  | VList l | VTuple l | VSet l => match l with [] => false | _ => true end
  | VDict d => match d with [] => false | _ => true end
  end.

(* ================================================================== *)
(** * The schema collaborator *)
(* ================================================================== *)

(** What the compilers consume of a field object. *)
Record Field : Type := mkField {
  db_field : string;
  required : bool;
  _geo_index : option string;
  prepare_query_value : option string -> value -> value
}.

(** An entry of the list [_doc_cls._lookup_field(parts)] returns: a field
    object, or a plain string for a segment that does not name a field. *)
Inductive looked_up : Type :=
| LName (s : string)
| LField (f : Field).

(** [_doc_cls._lookup_field]; [None] stands for any exception it raises. *)
Definition doc_cls := list string -> option (list looked_up).

(** [pymongo.GEO2D] *)
Definition GEO2D : string := "2d".

(* ================================================================== *)
(** * [mongoengine/queryset/transform.py] *)
(* ================================================================== *)

Definition COMPARISON_OPERATORS : list string :=
  ["ne"; "gt"; "gte"; "lt"; "lte"; "in"; "nin"; "mod";
   "all"; "size"; "exists"; "not"].
Definition GEO_OPERATORS : list string :=
  ["within_distance"; "within_spherical_distance";
   "within_box"; "within_polygon"; "near"; "near_sphere";
   "max_distance"; "geo_within"; "geo_within_box";
   "geo_within_polygon"; "geo_within_center";
   "geo_within_sphere"; "geo_intersects"].
Definition STRING_OPERATORS : list string :=
  ["contains"; "icontains"; "startswith";
   "istartswith"; "endswith"; "iendswith";
   "exact"; "iexact"].
Definition CUSTOM_OPERATORS : list string := ["match"].
Definition MATCH_OPERATORS : list string :=
  COMPARISON_OPERATORS ++ GEO_OPERATORS ++ STRING_OPERATORS ++ CUSTOM_OPERATORS.

Definition UPDATE_OPERATORS : list string :=
  ["set"; "unset"; "inc"; "dec"; "pop"; "push";
   "pull"; "pull_all"; "add_to_set"; "set_on_insert"].

(** The storage names of a looked-up path and the field objects among it
    ([parts] and [cleaned_fields] of the two compilers).  [fix_name] is what
    the compiler does to a plain string segment. *)
Definition storage_names (fix_name : string -> string) (fields : list looked_up)
  : list string :=
  map (fun f => match f with
                | LName s => fix_name s
                | LField f => db_field f
                end) fields.

Fixpoint cleaned_fields (fields : list looked_up) : list Field :=
  match fields with
  | [] => []
  | LName _ :: fs => cleaned_fields fs
  | LField f :: fs => f :: cleaned_fields fs
  end.

(** ** [update] *)

(** [if value > 0: value = -value], with Python 2's comparison of mixed
    types.  Numbers are the integers and the booleans.  [None] is below
    every number, so the test fails and [None] is kept as it is.  A string,
    a list, a tuple or a mapping is above every number and has no negation,
    and a set refuses the comparison: [TypeError]. *)
Definition dec_value (v : value) : result value :=
  match v with
  | VInt n => Ok (if (n >? 0)%Z then VInt (- n) else VInt n)
  | VBool b => Ok (if b then VInt (-1) else VBool b)
  | VNone => Ok VNone
  | VStr _ | VList _ | VTuple _ | VSet _ | VDict _ => Raise TypeError
  end.

(** Lines 153-168: the leading operator token and its Mongo name. *)
Definition update_operator (parts : list string) (v : value)
  : result (option string * list string * value) :=
  match parts with
  | [] => Raise IndexError
  | p0 :: rest =>
      if Str.mem p0 UPDATE_OPERATORS then
        if String.eqb p0 "pull_all" then Ok (Some "pullAll", rest, v)
        else if String.eqb p0 "dec" then
          v' <- dec_value v ;; Ok (Some "inc", rest, v')
        else if String.eqb p0 "add_to_set" then Ok (Some "addToSet", rest, v)
        else if String.eqb p0 "set_on_insert" then Ok (Some "setOnInsert", rest, v)
        else Ok (Some p0, rest, v)
      else Ok (None, parts, v)
  end.

(** Lines 170-172: a trailing comparison operator. *)
Definition update_match (parts : list string)
  : result (option string * list string) :=
  last <- getitem_last parts ;;
  if Str.mem last COMPARISON_OPERATORS
  then Ok (Some last, removelast parts)
  else Ok (None, parts).

Definition op_in (op : option string) (l : list (option string)) : bool :=
  existsb (fun o => match op, o with
                    | None, None => true
                    | Some a, Some b => String.eqb a b
                    | _, _ => false
                    end) l.

(** Lines 174-208: with a document class, names become storage names and the
    value goes through the terminal field. *)
Definition update_fields (cls : doc_cls) (op : option string)
    (parts : list string) (v : value) : result (list string * value) :=
  match cls parts with
  | None => Raise InvalidQueryError
  | Some fields =>
      let parts := storage_names
                     (fun s => if String.eqb s "S" then "$" else s) fields in
      field <- getitem_last (cleaned_fields fields) ;;
      v' <- (if op_in op [None; Some "set"; Some "push"; Some "pull"] then
               if required field || negb (is_none v)
               then Ok (prepare_query_value field op v) else Ok v
             else if op_in op [Some "pushAll"; Some "pullAll"] then
               vs <- iterate v ;;
               Ok (VList (map (prepare_query_value field op) vs))
             else if op_in op [Some "addToSet"] then
               match v with
               | VList vs | VTuple vs | VSet vs =>
                   Ok (VList (map (prepare_query_value field op) vs))
               | _ => if required field || negb (is_none v)
                      then Ok (prepare_query_value field op v) else Ok v
               end
             else Ok v) ;;
      Ok (parts, v')
  end.

(** Lines 151-212: everything up to the resolved path. *)
Definition update_resolve (cls : option doc_cls) (key : string) (v : value)
  : result (option string * list string * value) :=
  '(op, parts, v) <- update_operator (Str.split key) v ;;
  '(mtch, parts) <- update_match parts ;;
  '(parts, v) <- match cls with
                 | Some c => update_fields c op parts v
                 | None => Ok (parts, v)
                 end ;;
  let v := match mtch with
           | Some m => VDict [(("$" ++ m)%string, v)]
           | None => v
           end in
  Ok (op, parts, v).

(** Lines 227-229: [parts.reverse(); for key in parts: value = {key: value}]. *)
Definition nest_reversed (parts : list string) (v : value) : value :=
  fold_left (fun acc key => VDict [(key, acc)]) (rev parts) v.

(** Lines 214-234: the bucket [$op] and the document that goes into it. *)
Definition update_emit (op : option string) (parts : list string) (v : value)
  : result (string * value) :=
  let key := Str.join "." parts in
  match op with
  | None => Raise InvalidQueryError
  | Some op =>
      v' <- (if Str.contains "pull" op && Str.contains "." key then
               if String.eqb op "pullAll" then Raise InvalidQueryError
               else Ok (nest_reversed parts v)
             else if String.eqb op "addToSet" then
               match v with
               | VList _ => Ok (VDict [(key, VDict [("$each", v)])])
               | _ => Ok (VDict [(key, v)])
               end
             else Ok (VDict [(key, v)])) ;;
      Ok (("$" ++ op)%string, v')
  end.

(** Lines 236-239: a new bucket is created, a bucket that is a mapping is
    merged into, and anything else is left as it is. *)
Definition update_merge (mongo_update : dict) (key : string) (v : value)
  : result dict :=
  match Dict.get key mongo_update with
  | None => Ok (Dict.set key v mongo_update)
  | Some (VDict bucket) =>
      bucket' <- dict_update_value bucket v ;;
      Ok (Dict.set key (VDict bucket') mongo_update)
  | Some _ => Ok mongo_update
  end.

(** One turn of the loop over [update.items()]. *)
Definition update_pair (cls : option doc_cls) (mongo_update : dict)
    (kv : string * value) : result dict :=
  let '(key, v) := kv in
  if String.eqb key "__raw__" then dict_update_value mongo_update v
  else
    '(op, parts, v) <- update_resolve cls key v ;;
    '(bucket, v) <- update_emit op parts v ;;
    update_merge mongo_update bucket v.

(** [update(_doc_cls, **update)]; the keyword arguments in the order the
    dictionary yields them. *)
Definition update (cls : option doc_cls) (kwargs : list (string * value))
  : result dict :=
  foldM (update_pair cls) kwargs [].

(** ** [_infer_geometry] and [_geo_operator] *)

Definition succeeds {A : Type} (r : result A) : bool :=
  match r with Ok _ => true | Raise _ => false end.

(** [value[0][0][0]], [value[0][0]] and [value[0]]; each is evaluated under a
    bare [except], so only whether it raises matters. *)
Definition index1 (v : value) : result value := getitem0 v.
Definition index2 (v : value) : result value := a <- getitem0 v ;; getitem0 a.
Definition index3 (v : value) : result value :=
  a <- getitem0 v ;; b <- getitem0 a ;; getitem0 b.

Definition geometry (type : string) (v : value) : value :=
  VDict [("$geometry", VDict [("type", VStr type); ("coordinates", v)])].

Definition _infer_geometry (v : value) : result value :=
  match v with
  | VDict d =>
      if Dict.has "$geometry" d then Ok v
      else if Dict.has "coordinates" d && Dict.has "type" d
           then Ok (VDict [("$geometry", v)])
           else Raise InvalidQueryError
  | VList _ | VSet _ =>
      if succeeds (index3 v) then Ok (geometry "Polygon" v)
      else if succeeds (index2 v) then Ok (geometry "LineString" v)
      else if succeeds (index1 v) then Ok (geometry "Point" v)
      else Raise InvalidQueryError
  | _ => Raise InvalidQueryError
  end.

Definition wrap (k : string) (v : value) : value := VDict [(k, v)].

Definition is_geo2d (field : Field) : bool :=
  match _geo_index field with
  | Some i => String.eqb i GEO2D
  | None => false
  end.

Definition _geo_operator (field : Field) (op : string) (v : value)
  : result value :=
  if is_geo2d field then
    if String.eqb op "within_distance" then Ok (wrap "$within" (wrap "$center" v))
    else if String.eqb op "within_spherical_distance"
      then Ok (wrap "$within" (wrap "$centerSphere" v))
    else if String.eqb op "within_polygon" then Ok (wrap "$within" (wrap "$polygon" v))
    else if String.eqb op "near" then Ok (wrap "$near" v)
    else if String.eqb op "near_sphere" then Ok (wrap "$nearSphere" v)
    else if String.eqb op "within_box" then Ok (wrap "$within" (wrap "$box" v))
    else if String.eqb op "max_distance" then Ok (wrap "$maxDistance" v)
    else Raise NotImplementedError
  else
    if String.eqb op "geo_within" then
      g <- _infer_geometry v ;; Ok (wrap "$geoWithin" g)
    else if String.eqb op "geo_within_box" then Ok (wrap "$geoWithin" (wrap "$box" v))
    else if String.eqb op "geo_within_polygon"
      then Ok (wrap "$geoWithin" (wrap "$polygon" v))
    else if String.eqb op "geo_within_center"
      then Ok (wrap "$geoWithin" (wrap "$center" v))
    else if String.eqb op "geo_within_sphere"
      then Ok (wrap "$geoWithin" (wrap "$centerSphere" v))
    else if String.eqb op "geo_intersects" then
      g <- _infer_geometry v ;; Ok (wrap "$geoIntersects" g)
    else if String.eqb op "near" then
      g <- _infer_geometry v ;; Ok (wrap "$near" g)
    else if String.eqb op "max_distance" then Ok (wrap "$maxDistance" v)
    else Raise NotImplementedError.

(** ** [query] *)

Fixpoint enumerate_from {A : Type} (i : nat) (l : list A) : list (nat * A) :=
  match l with
  | [] => []
  | x :: l' => (i, x) :: enumerate_from (S i) l'
  end.

(** Line 41: [[(i, p) for i, p in enumerate(parts) if p.isdigit()]] *)
Definition digit_indices (parts : list string) : list (nat * string) :=
  filter (fun ip => Str.isdigit (snd ip)) (enumerate_from 0 parts).

(** Line 42: [[part for part in parts if not part.isdigit()]] *)
Definition without_digits (parts : list string) : list string :=
  filter (fun p => negb (Str.isdigit p)) parts.

(** Lines 40-51: split, set the numeric segments aside, pop the operator and
    the negation marker.  [parts[-1]] raises on an empty list. *)
Definition query_split (key : string)
  : result (list (nat * string) * list string * option string * bool) :=
  let parts := Str.split key in
  let indices := digit_indices parts in
  let parts := without_digits parts in
  last <- getitem_last parts ;;
  let '(op, parts) := if Str.mem last MATCH_OPERATORS
                      then (Some last, removelast parts)
                      else (None, parts) in
  last <- getitem_last parts ;;
  let '(negate, parts) := if String.eqb last "not"
                          then (true, removelast parts)
                          else (false, parts) in
  Ok (indices, parts, op, negate).

Definition singular_ops : list (option string) :=
  [None; Some "ne"; Some "gt"; Some "gte"; Some "lt"; Some "lte"; Some "not"]
  ++ map Some STRING_OPERATORS.

(** Lines 53-89.  [field = cleaned_fields[-1]] is always a field object, so
    the [isinstance(field, str)] branch of the source is never taken. *)
Definition query_fields (cls : doc_cls) (op : option string)
    (parts : list string) (v : value) : result (list string * Field * value) :=
  match cls parts with
  | None => Raise InvalidQueryError
  | Some fields =>
      let parts := storage_names (fun s => s) fields in
      field <- getitem_last (cleaned_fields fields) ;;
      v' <- (if op_in op singular_ops then Ok (prepare_query_value field op v)
             else if op_in op [Some "in"; Some "nin"; Some "all"; Some "near"]
                     && negb (is_dict v) then
               vs <- iterate v ;;
               Ok (VList (map (prepare_query_value field op) vs))
             else Ok v) ;;
      Ok (parts, field, v')
  end.

(** Lines 92-102.  Without a document class the name [field] is unbound when
    a geo operator reaches [_geo_operator]. *)
Definition query_operator (field : option Field) (op : option string)
    (v : value) : result value :=
  match op with
  | None => Ok v
  | Some o =>
      if Str.mem o GEO_OPERATORS then
        match field with
        | Some f => _geo_operator f o v
        | None => Raise UnboundLocalError
        end
      else if Str.mem o CUSTOM_OPERATORS then
        if String.eqb o "match" then Ok (wrap "$elemMatch" v) else Ok v
      else if negb (Str.mem o STRING_OPERATORS) then Ok (wrap ("$" ++ o)%string v)
      else Ok v
  end.

(** Lines 107-108: [for i, part in indices: parts.insert(i, part)] *)
Definition reinsert (indices : list (nat * string)) (parts : list string)
  : list string :=
  fold_left (fun acc ip => list_insert (fst ip) (snd ip) acc) indices parts.

(** Lines 116-124: when the merged document has a [$maxDistance] key it is
    rebuilt as a [SON], every other key in its order and [$maxDistance] set
    afterwards; otherwise the merged document is kept. *)
Definition maxdistance_last (value_dict : dict) : dict :=
  match Dict.get "$maxDistance" value_dict with
  | None => value_dict
  | Some m =>
      let value_son :=
        fold_left (fun son kv =>
                     if String.eqb (fst kv) "$maxDistance" then son
                     else Dict.set (fst kv) (snd kv) son)
                  value_dict [] in
      Dict.set "$maxDistance" m value_son
  end.

(** [merge_query = defaultdict(list)]: the deferred fragments per key.  It
    is a plain dictionary; the list gives its keys in the order of their
    first collision, which stands for the order in which line 130 iterates
    it (Python 2 may take the keys in another order, and then the turns of
    that loop are taken in that other order). *)
Definition merge_dict := list (string * list value).

(** [merge_query[key].append(value)] *)
Fixpoint merge_append (key : string) (v : value) (m : merge_dict) : merge_dict :=
  match m with
  | [] => [(key, [v])]
  | (k, vs) :: m' =>
      if String.eqb key k then (k, vs ++ [v]) :: m'
      else (k, vs) :: merge_append key v m'
  end.

(** Lines 110-127: store the compiled value under its key. *)
Definition query_store (mongo_query : dict) (merge_query : merge_dict)
    (op : option string) (key : string) (v : value)
  : result (dict * merge_dict) :=
  match op, Dict.get key mongo_query with
  | None, _ | Some _, None => Ok (Dict.set key v mongo_query, merge_query)
  | Some _, Some (VDict existing) =>
      merged <- dict_update_value existing v ;;
      Ok (Dict.set key (VDict (maxdistance_last merged)) mongo_query, merge_query)
  | Some _, Some _ => Ok (mongo_query, merge_append key v merge_query)
  end.

(** Lines 40-109: from a keyword pair to the operator, the storage key and
    the compiled value. *)
Definition query_resolve (cls : option doc_cls) (key : string) (v : value)
  : result (option string * string * value) :=
  '(indices, parts, op, negate) <- query_split key ;;
  '(parts, field, v) <-
      match cls with
      | Some c => '(parts, field, v) <- query_fields c op parts v ;;
                  Ok (parts, Some field, v)
      | None => Ok (parts, None, v)
      end ;;
  v <- query_operator field op v ;;
  let v := if negate : bool then wrap "$not" v else v in
  Ok (op, Str.join "." (reinsert indices parts), v).

(** One turn of the loop over [sorted(query.items())]. *)
Definition query_pair (cls : option doc_cls) (st : dict * merge_dict)
    (kv : string * value) : result (dict * merge_dict) :=
  let '(mongo_query, merge_query) := st in
  let '(key, v) := kv in
  if String.eqb key "__raw__" then
    mongo_query' <- dict_update_value mongo_query v ;;
    Ok (mongo_query', merge_query)
  else
    '(op, key, v) <- query_resolve cls key v ;;
    query_store mongo_query merge_query op key v.

(** Lines 130-138, one turn.  [v] is the very list stored in [merge_query],
    so the [append] of line 131 is seen through it. *)
Definition query_fold_and (mongo_query : dict) (kv : string * list value)
  : result dict :=
  let '(k, v) := kv in
  match Dict.get k mongo_query with
  | None => Raise KeyError
  | Some existing =>
      let v := v ++ [existing] in
      let mongo_query := Dict.remove k mongo_query in
      let fragments := map (fun val => VDict [(k, val)]) v in
      match Dict.get "$and" mongo_query with
      | None => Ok (Dict.set "$and" (VList fragments) mongo_query)
      | Some (VList clauses) =>
          (* [mongo_query['$and'].append(value)]: the list as one element *)
          Ok (Dict.set "$and" (VList (clauses ++ [VList fragments])) mongo_query)
      | Some _ => Raise AttributeError
      end
  end.

(** [sorted(query.items())]: by key, byte-wise. *)
Fixpoint insert_sorted (kv : string * value) (l : list (string * value))
  : list (string * value) :=
  match l with
  | [] => [kv]
  | x :: l' => if String.leb (fst kv) (fst x) then kv :: l
               else x :: insert_sorted kv l'
  end.

Definition sorted_items (kwargs : list (string * value)) : list (string * value) :=
  fold_right insert_sorted [] kwargs.

(** [query(_doc_cls, **query)] *)
Definition query (cls : option doc_cls) (kwargs : list (string * value))
  : result dict :=
  '(mongo_query, merge_query) <-
      foldM (query_pair cls) (sorted_items kwargs) ([], []) ;;
  foldM query_fold_and merge_query mongo_query.

(* ================================================================== *)
(** * [mongoengine/document.py] *)
(* ================================================================== *)

Module Document.

(** The calls [Document] makes on the storage side: on the collection
    handle, and through the [QuerySet] built over it. *)
Inductive storage_call : Type :=
| CollectionUpdate (collection : string) (spec update_query write_concern : dict)
| CollectionInsert (collection : string) (doc write_concern : dict)
| QuerySetUpdateOne (collection : string) (filter : dict)
                    (kwargs : list (string * value)).

(** What a call can observe and change outside the instance: the handle
    cached on the class ([cls._collection]) and the calls made so far. *)
Record world : Type := mkWorld {
  cls_collection : option string;
  calls : list storage_call
}.

(** A document instance, as far as [document.py] reads and writes it. *)
Record document : Type := mkDocument {
  collection_name : string;        (* [_meta['collection']] *)
  id_field : string;               (* [_meta['id_field']] *)
  db_id_field : string;            (* [_fields[id_field].db_field] *)
  _created : bool;
  _internal_data : dict;
  _db_data : dict
}.

(** State and exceptions together: a computation runs in a world and leaves
    a world behind, also when it raises. *)
Definition M (A : Type) : Type := world -> result A * world.

Definition ret {A : Type} (a : A) : M A := fun w => (Ok a, w).
Definition throw {A : Type} (e : exn) : M A := fun w => (Raise e, w).
Definition bindM {A B : Type} (m : M A) (k : A -> M B) : M B :=
  fun w => match m w with
           | (Ok a, w') => k a w'
           | (Raise e, w') => (Raise e, w')
           end.

Notation "x <~ e ;; k" := (bindM e (fun x => k))
  (at level 61, e at next level, right associativity).

(** The handle [_get_collection] answers with: the cached one, or the
    one of the collection's name. *)
Definition handle_of (self : document) (w : world) : string :=
  match cls_collection w with
  | Some c => c
  | None => collection_name self
  end.

Section Collaborators.

(** Code of [BaseDocument] and of the driver, which [document.py] only
    calls: the attribute read behind [self.pk], [_delta], [_to_son], and
    what the storage answers to a call (a value, or a failure). *)
Variable pk : document -> value.
Variable _delta : document -> dict * dict.
Variable _to_son : document -> dict.
Variable storage : storage_call -> result value.

(** A call on the storage side: recorded, then answered. *)
Definition call (c : storage_call) : M value :=
  fun w => (storage c, mkWorld (cls_collection w) (calls w ++ [c])).

(** [_get_collection]: the handle is looked up once and cached. *)
Definition _get_collection (self : document) : M string :=
  fun w => match cls_collection w with
           | Some c => (Ok c, w)
           | None => (Ok (collection_name self),
                      mkWorld (Some (collection_name self)) (calls w))
           end.

Definition _object_key (self : document) : dict := [("pk", pk self)].
Definition _db_object_key (self : document) : dict :=
  [(db_id_field self, pk self)].

Definition nonempty (d : dict) : bool :=
  match d with [] => false | _ => true end.

(** [if not write_concern: write_concern = {'w': 1}] *)
Definition default_write_concern (write_concern : option dict) : dict :=
  match write_concern with
  | Some (kv :: wc) => kv :: wc
  | Some [] | None => [("w", VInt 1)]
  end.

(** Lines 160-169: the update document of a persisted instance. *)
Definition update_query_of (self : document) : dict :=
  let '(sets, unsets) := _delta self in
  let sets := Dict.remove (db_id_field self) sets in
  let update_query := [] in
  let update_query := if nonempty sets
                      then Dict.set "$set" (VDict sets) update_query
                      else update_query in
  let update_query := if nonempty unsets
                      then Dict.set "$unset" (VDict unsets) update_query
                      else update_query in
  update_query.

(** [del d[k]]: [KeyError] when the key is missing. *)
Definition delitem (k : string) (d : dict) : result dict :=
  if Dict.has k d then Ok (Dict.remove k d) else Raise KeyError.

(** [save] answers with the instance as the call leaves it.  When the
    [del] of the insert branch raises, [_created] has already been set on
    the instance; the model reports the exception only. *)
Definition save (self : document) (write_concern : option dict)
  : M document :=
  collection <~ _get_collection self ;;
  let write_concern := default_write_concern write_concern in
  if _created self then
    let update_query := update_query_of self in
    if nonempty update_query then
      _ <~ call (CollectionUpdate collection (_db_object_key self)
                                  update_query write_concern) ;;
      ret self
    else ret self
  else
    let doc := _to_son self in
    object_id <~ call (CollectionInsert collection doc write_concern) ;;
    match delitem (id_field self) (_internal_data self) with
    | Raise e => throw e
    | Ok internal =>
        ret (mkDocument (collection_name self) (id_field self)
                        (db_id_field self) true internal
                        (Dict.set (db_id_field self) object_id (_db_data self)))
    end.

(** [Document.update], called with keyword arguments. *)
Definition update (self : document) (kwargs : list (string * value))
  : M value :=
  if negb (truthy (pk self)) then throw OperationError
  else
    collection <~ _get_collection self ;;
    call (QuerySetUpdateOne collection (_object_key self) kwargs).

(** [Document.to_dbref()]: the pair a [DBRef] is built from. *)
Definition to_dbref (self : document) : M (string * value) :=
  if negb (truthy (pk self)) then throw OperationError
  else ret (collection_name self, pk self).

End Collaborators.

End Document.

(* ================================================================== *)
(** * The change tracker and the delta engine *)
(* ================================================================== *)

Module Delta.

(** Modelled from the spec: a dirty path of the ChangeSet, as its segments
    ([BaseDocument] and its change tracking live in [mongoengine/base],
    which is not among the sources; only [tests/document/test_delta.py]
    exercises them). *)
Definition path : Type := list string.

(** Modelled from the spec: the lifecycle states of section 4.4 of the
    spec (the tracker's code is missing from the sources). *)
Inductive lifecycle : Type := NEW | CLEAN | DIRTY.

(** Modelled from the spec: a document instance as the delta engine sees
    it, standing for the missing [BaseDocument]: the prior persisted state,
    the current field values and the ChangeSet.  [before] is what "previously"
    refers to in the rule for unsets: for each field with a pending change,
    the value it held when that change began ([None] for no value).  In the
    lifecycle of section 4.4 this is the persisted value
    ([before_is_persisted]); [tests/document/test_delta.py] empties the
    ChangeSet by hand without persisting, and then gets an unset for a field
    whose stored value never had content, so the persisted state alone
    cannot decide it. *)
Record tracked : Type := mkTracked {
  state : lifecycle;
  persisted : dict;
  fields : dict;
  changed : list path;
  before : list (string * option value)
}.

(** Modelled from the spec: "coarser prefixes supersede finer ones"
    (the missing tracker's path comparison). *)
Fixpoint is_prefix (p q : path) : bool :=
  match p, q with
  | [], _ => true
  | _ :: _, [] => false
  | a :: p', b :: q' => String.eqb a b && is_prefix p' q'
  end.

(** Modelled from the spec: marking a path dirty in the missing tracker.
    Marking is idempotent, a path under a recorded coarser one adds
    nothing, and a coarser path voids the finer ones recorded under it. *)
Definition mark (p : path) (cs : list path) : list path :=
  if existsb (fun q => is_prefix q p) cs then cs
  else filter (fun q => negb (is_prefix p q)) cs ++ [p].

(** Modelled from the spec: hydration from storage yields a CLEAN document
    with an empty ChangeSet (the missing [BaseDocument] constructor). *)
Definition hydrate (son : dict) : tracked := mkTracked CLEAN son son [] [].

(** Modelled from the spec: a freshly instantiated document is NEW (the
    missing [BaseDocument] constructor). *)
Definition create (values : dict) : tracked := mkTracked NEW [] values [] [].

(** Modelled from the spec: a field has a pending change when a recorded
    path is the field, lies under it, or is coarser than it (missing
    tracker). *)
Definition pending (field : string) (cs : list path) : bool :=
  existsb (fun q => is_prefix q [field] || is_prefix [field] q) cs.

(** Modelled from the spec: the record of what a field held "previously"
    (missing tracker): one entry for each field, the latest first. *)
Fixpoint held (field : string) (l : list (string * option value))
  : option value :=
  match l with
  | [] => None
  | (f, o) :: l' => if String.eqb field f then o else held field l'
  end.

(** Modelled from the spec: attribute assignment in the missing
    [BaseDocument]: the field takes the value and its path is recorded.  The
    first of the pending changes of a field notes the value it replaces. *)
Definition assign (field : string) (v : value) (doc : tracked) : tracked :=
  mkTracked (match state doc with NEW => NEW | _ => DIRTY end)
            (persisted doc)
            (Dict.set field v (fields doc))
            (mark [field] (changed doc))
            (if pending field (changed doc) then before doc
             else (field, Dict.get field (fields doc)) :: before doc).

(** Modelled from the spec: successful persistence of the emitted delta
    clears the ChangeSet and makes the current values the persisted ones
    (the missing save path of [BaseDocument]). *)
Definition persist (doc : tracked) : tracked :=
  mkTracked CLEAN (fields doc) (fields doc) [] [].

(** Modelled from the spec: the ChangeSet of the missing tracker emptied by
    hand, as [tests/document/test_delta.py] does between its steps with
    [doc._changed_fields = set()]: no value changes and nothing is
    persisted. *)
Definition forget_changes (doc : tracked) : tracked :=
  mkTracked (state doc) (persisted doc) (fields doc) [] (before doc).

(** Modelled from the spec: the decimal value of an index segment (path
    walking of the missing delta engine). *)
Fixpoint nat_of_digits (acc : nat) (s : string) : nat :=
  match s with
  | EmptyString => acc
  | String c s' => nat_of_digits (10 * acc + (nat_of_ascii c - 48)) s'
  end.

(** Modelled from the spec: the value at a path, through embedded
    documents and mappings by key and through arrays by index; recursing
    into an embedded value and re-prefixing its delta with the outer path
    reads the same value under the same key (missing delta engine). *)
Fixpoint at_path (p : path) (v : value) : option value :=
  match p with
  | [] => Some v
  | seg :: p' =>
      match v with
      | VDict d =>
          match Dict.get seg d with
          | Some v' => at_path p' v'
          | None => None
          end
      | VList l =>
          if Str.isdigit seg then
            match nth_error l (nat_of_digits 0 seg) with
            | Some v' => at_path p' v'
            | None => None
            end
          else None
      | _ => None
      end
  end.

(** Modelled from the spec: "absent/empty" in the missing delta engine: no
    value, [None], an empty mapping or an empty array. *)
Definition is_empty (o : option value) : bool :=
  match o with
  | None | Some VNone | Some (VDict []) | Some (VList []) => true
  | Some _ => false
  end.

(** Modelled from the spec: "previously had content" in the missing delta
    engine. *)
Definition has_content (o : option value) : bool := negb (is_empty o).

(** Modelled from the spec: serialization of a current value by the
    missing field classes; tree values are already in storage form. *)
Definition serialize (o : option value) : value :=
  match o with Some v => v | None => VNone end.

(** Modelled from the spec: the key of a path in a DeltaResult. *)
Definition dotted (p : path) : string := Str.join "." p.

(** Modelled from the spec: the value previously at a path (missing delta
    engine): the path is walked in what its field held when its pending
    change began. *)
Definition previously (doc : tracked) (p : path) : option value :=
  match p with
  | [] => Some (VDict (persisted doc))
  | field :: p' =>
      match held field (before doc) with
      | Some v => at_path p' v
      | None => None
      end
  end.

(** Modelled from the spec: one dirty path of the missing [_delta]: an
    unset with the sentinel [1] when the value is now absent or empty and
    previously had content, a set of the serialized value otherwise. *)
Definition delta_path (doc : tracked) (acc : dict * dict) (p : path)
  : dict * dict :=
  let cur := at_path p (VDict (fields doc)) in
  let prior := previously doc p in
  if is_empty cur && has_content prior
  then (fst acc, Dict.set (dotted p) (VInt 1) (snd acc))
  else (Dict.set (dotted p) (serialize cur) (fst acc), snd acc).

(** Modelled from the spec: "in path order" (missing delta engine). *)
Fixpoint insert_path (p : path) (l : list path) : list path :=
  match l with
  | [] => [p]
  | q :: l' => if String.leb (dotted p) (dotted q) then p :: l
               else q :: insert_path p l'
  end.

(** Modelled from the spec: [document.delta()], standing for the missing
    [BaseDocument._delta]: every field for a NEW document, the dirty paths
    in path order otherwise. *)
Definition delta (doc : tracked) : dict * dict :=
  match state doc with
  | NEW => (fields doc, [])
  | CLEAN | DIRTY =>
      fold_left (delta_path doc) (fold_right insert_path [] (changed doc)) ([], [])
  end.

(** Modelled from the spec: the scalar values of the claims about the
    missing delta engine (numbers, booleans, strings). *)
Definition is_scalar (v : value) : bool :=
  match v with
  | VBool _ | VInt _ | VStr _ => true
  | _ => false
  end.

(** Modelled from the spec: the instances of the lifecycle of section 4.4:
    hydrated from storage, then mutated and persisted any number of times
    (the ChangeSet is the tracker's own, never emptied by hand). *)
Inductive in_lifecycle : tracked -> Prop :=
| lc_hydrate (son : dict) : in_lifecycle (hydrate son)
| lc_assign (field : string) (v : value) (doc : tracked) :
    in_lifecycle doc -> in_lifecycle (assign field v doc)
| lc_persist (doc : tracked) : in_lifecycle doc -> in_lifecycle (persist doc).

End Delta.

(* ================================================================== *)
(** * Specification-side definitions *)
(* ================================================================== *)

(** The nested form of a pull: the first segment outermost, the match value
    under the last one. *)
Fixpoint nest (parts : list string) (v : value) : value :=
  match parts with
  | [] => v
  | p :: ps => VDict [(p, nest ps v)]
  end.

(** A document with exactly one key. *)
Definition is_single_key_doc (v : value) : bool :=
  match v with
  | VDict [_] => true
  | _ => false
  end.

(** The last key of an ordered document. *)
Definition last_key (d : dict) : option string :=
  match rev d with
  | [] => None
  | (k, _) :: _ => Some k
  end.

(** A document class with one geo field, [location], stored as [loc]: the
    schema of the geo examples. *)
Definition geo_field (index : string) : Field :=
  mkField "loc" false (Some index) (fun _ v => v).

Definition place_cls (index : string) : doc_cls :=
  fun parts =>
    match parts with
    | [p] => if String.eqb p "location" then Some [LField (geo_field index)]
             else None
    | _ => None
    end.

(** The original segments with the numeric ones where they stood and each
    other slot taking the next resolved name; slots left when the names run
    out (the popped operator and negation tokens) disappear. *)
Fixpoint in_place (original names : list string) : list string :=
  match original with
  | [] => names
  | seg :: rest =>
      if Str.isdigit seg then seg :: in_place rest names
      else match names with
           | [] => in_place rest []
           | n :: names' => n :: in_place rest names'
           end
  end.

(** [digit_indices] with the count started at [k]. *)
Definition indices_from (k : nat) (parts : list string) : list (nat * string) :=
  filter (fun ip => Str.isdigit (snd ip)) (enumerate_from k parts).

(** The tokens [query_split] pops, in the order they stood in the key. *)
Definition popped_tokens (op : option string) (negate : bool) : list string :=
  (if negate then ["not"] else [])
  ++ match op with Some o => [o] | None => [] end.

(** The resolution of an update key if the path after the update operator
    went through the resolver [query] uses: numeric segments set aside before
    the match operator is looked for, and put back afterwards. *)
Definition update_resolve_digits_aside (key : string) (v : value)
  : result (option string * list string * value) :=
  '(op, parts, v) <- update_operator (Str.split key) v ;;
  let indices := digit_indices parts in
  '(mtch, parts) <- update_match (without_digits parts) ;;
  let v := match mtch with
           | Some m => VDict [(("$" ++ m)%string, v)]
           | None => v
           end in
  Ok (op, reinsert indices parts, v).

(** A persisted document of a collection [site] and what its collaborators
    answer, for the examples: the primary key is read from the stored data,
    and the delta reports the identifier and one changed field. *)
Definition site_doc (data : dict) : Document.document :=
  Document.mkDocument "site" "id" "_id" true [] data.

Definition stored_pk (self : Document.document) : value :=
  match Dict.get (Document.db_id_field self) (Document._db_data self) with
  | Some v => v
  | None => VNone
  end.

Definition renamed_delta (self : Document.document) : dict * dict :=
  ([("_id", stored_pk self); ("name", VStr "test")], []).

Definition acknowledging (c : Document.storage_call) : result value :=
  Ok (VInt 1).

Definition fresh_world : Document.world := Document.mkWorld None [].

(* ================================================================== *)
(** * [Document.register] and [Document._register_default_fields] *)
(* ================================================================== *)

Module DocumentClass.

(** [c.isupper()] for one character of a byte string. *)
Definition isupper (c : ascii) : bool :=
  let n := nat_of_ascii c in ((65 <=? n)%nat && (n <=? 90)%nat)%bool.

(** One character of [s.lower()]. *)
Definition lower_char (c : ascii) : ascii :=
  if isupper c then ascii_of_nat (nat_of_ascii c + 32) else c.

(** [s.lower()] *)
Fixpoint lower (s : string) : string :=
  match s with
  | EmptyString => EmptyString
  | String c s' => String (lower_char c) (lower s')
  end.

(** [''.join('_%s' % c if c.isupper() else c for c in name)] *)
Fixpoint underscore_capitals (name : string) : string :=
  match name with
  | EmptyString => EmptyString
  | String c name' =>
      if isupper c then String "_" (String c (underscore_capitals name'))
      else String c (underscore_capitals name')
  end.

(** [s.lstrip('_')] *)
Fixpoint lstrip_underscores (s : string) : string :=
  match s with
  | String c s' => if Ascii.eqb c "_" then lstrip_underscores s' else s
  | EmptyString => EmptyString
  end.

(** [s.rstrip('_')]: a trailing run of underscores is dropped. *)
Fixpoint rstrip_underscores (s : string) : string :=
  match s with
  | EmptyString => EmptyString
  | String c s' =>
      match rstrip_underscores s' with
      | EmptyString => if Ascii.eqb c "_" then EmptyString
                       else String c EmptyString
      | rest => String c rest
      end
  end.

(** [s.strip('_')] *)
Definition strip_underscores (s : string) : string :=
  rstrip_underscores (lstrip_underscores s).

(** Lines 95-96: the collection name derived from the class name. *)
Definition derived_collection (class_name : string) : string :=
  lower (strip_underscores (underscore_capitals class_name)).

(** What [_register_default_fields] and [register] read and write of a
    document class: its name, its [_meta] entries, the declared fields with
    their storage names, [_rename_to_db], and the attributes [register]
    sets. *)
Record field_decl : Type := mkDecl {
  decl_db_field : string;
  decl_primary_key : bool
}.

Record doc_class : Type := mkClass {
  class_name : string;
  meta_id_field : string;
  meta_abstract : bool;
  meta_collection : option string;
  class_fields : list (string * field_decl);
  _rename_to_db : list (string * string);
  _collection : option string;
  _db_id_field : option string
}.

Fixpoint lookup {A : Type} (k : string) (l : list (string * A)) : option A :=
  match l with
  | [] => None
  | (k', a) :: l' => if String.eqb k k' then Some a else lookup k l'
  end.

(** [ObjectIdField(primary_key=True, db_field='_id')] *)
Definition object_id_field : field_decl := mkDecl "_id" true.

(** [_register_default_fields]: a class whose id field is [id], which does
    not declare it and is not abstract, gets an [id] field stored as [_id]. *)
Definition _register_default_fields (cls : doc_class) : doc_class :=
  if String.eqb (meta_id_field cls) "id"
     && match lookup "id" (class_fields cls) with None => true | Some _ => false end
     && negb (meta_abstract cls)
  then mkClass (class_name cls) (meta_id_field cls) (meta_abstract cls)
               (meta_collection cls)
               (class_fields cls ++ [("id", object_id_field)])
               (_rename_to_db cls) (_collection cls) (_db_id_field cls)
  else cls.

(** [not cls._meta.get('collection')]: no entry, [None] or the empty name. *)
Definition no_collection (c : option string) : bool :=
  match c with
  | None => true
  | Some n => String.eqb n ""
  end.

(** [register], after the base class's own registration: the cached handle
    is dropped, the storage name of the id field is looked up in
    [_rename_to_db] (itself when it is not renamed), and a class without a
    collection name gets the derived one. *)
Definition register (cls : doc_class) : doc_class :=
  let id_field := meta_id_field cls in
  mkClass (class_name cls) id_field (meta_abstract cls)
          (if no_collection (meta_collection cls)
           then Some (derived_collection (class_name cls))
           else meta_collection cls)
          (class_fields cls) (_rename_to_db cls)
          None
          (Some (match lookup id_field (_rename_to_db cls) with
                 | Some db => db
                 | None => id_field
                 end)).

End DocumentClass.

(* ================================================================== *)
(** * [Document.reload], [Document.delete], [Document.drop_collection] *)
(* ================================================================== *)

Module Lifecycle.

(** The calls these three methods make on the storage side. *)
Inductive storage_call : Type :=
| FindOne (collection : string) (spec : dict)
| QuerySetDelete (collection : string) (filter write_concern : dict)
| DropCollection (name : string).

(** What the driver answers to a delete: done, the driver's
    [pymongo.errors.OperationFailure], or any other exception. *)
Inductive delete_answer : Type :=
| Deleted
| OperationFailure
| OtherFailure (e : exn).

(** The handle cached on the class and the calls made so far. *)
Record world : Type := mkWorld {
  cls_collection : option string;
  calls : list storage_call
}.

(** An instance: what [Document.save] touches of it, and the [_lazy] flag. *)
Record instance : Type := mkInstance {
  document : Document.document;
  _lazy : bool
}.

Definition M (A : Type) : Type := world -> result A * world.

(** The handle [_get_collection] answers with. *)
Definition handle_of (self : instance) (w : world) : string :=
  match cls_collection w with
  | Some c => c
  | None => Document.collection_name (document self)
  end.

Section Collaborators.

(** The attribute read behind [self.pk] and the driver's answers. *)
Variable pk : Document.document -> value.
Variable find_one : string -> dict -> result (option dict).
Variable qs_delete : string -> dict -> dict -> delete_answer.

(** [_get_collection], on this module's world. *)
Definition _get_collection (self : instance) : M string :=
  fun w => match cls_collection w with
           | Some c => (Ok c, w)
           | None => (Ok (Document.collection_name (document self)),
                      mkWorld (Some (Document.collection_name (document self)))
                              (calls w))
           end.

Definition record_call (c : storage_call) (w : world) : world :=
  mkWorld (cls_collection w) (calls w ++ [c]).

(** [reload]: the stored document replaces the instance's data; a document
    that is not found any more is an OperationError. *)
Definition reload (self : instance) : M instance :=
  fun w =>
    match _get_collection self w with
    | (Raise e, w1) => (Raise e, w1)
    | (Ok collection, w1) =>
        let spec := Document._db_object_key pk (document self) in
        let w2 := record_call (FindOne collection spec) w1 in
        match find_one collection spec with
        | Raise e => (Raise e, w2)
        | Ok None => (Raise OperationError, w2)
        | Ok (Some son) =>
            (Ok (mkInstance
                   (Document.mkDocument
                      (Document.collection_name (document self))
                      (Document.id_field (document self))
                      (Document.db_id_field (document self))
                      true [] son)
                   false), w2)
        end
    end.

(** [delete]: one delete through the query set filtered by the primary
    key; the driver's OperationFailure becomes an OperationError. *)
Definition delete (self : instance) (write_concern : option dict) : M unit :=
  fun w =>
    let write_concern := Document.default_write_concern write_concern in
    match _get_collection self w with
    | (Raise e, w1) => (Raise e, w1)
    | (Ok collection, w1) =>
        let filter := Document._object_key pk (document self) in
        let w2 := record_call (QuerySetDelete collection filter write_concern) w1 in
        match qs_delete collection filter write_concern with
        | Deleted => (Ok tt, w2)
        | OperationFailure => (Raise OperationError, w2)
        | OtherFailure e => (Raise e, w2)
        end
    end.

(** [drop_collection]: the cached handle is dropped, then the collection of
    the class's name. *)
Definition drop_collection (collection_name : string) : M unit :=
  fun w => (Ok tt, mkWorld None (calls w ++ [DropCollection collection_name])).

End Collaborators.

End Lifecycle.

(* ================================================================== *)
(** * Further specification-side definitions *)
(* ================================================================== *)

(** A segment that survives [key.split('__')]: it has no two underscores in
    a row and does not end with one. *)
Fixpoint splittable (s : string) : bool :=
  match s with
  | EmptyString => true
  | String c s' =>
      if Ascii.eqb c "_" then
        match s' with
        | EmptyString => false
        | String c' _ => negb (Ascii.eqb c' "_") && splittable s'
        end
      else splittable s'
  end.

(** The Mongo names [update] can use for a bucket. *)
Definition MONGO_UPDATE_OPERATORS : list string :=
  ["$set"; "$unset"; "$inc"; "$pop"; "$push"; "$pull"; "$pullAll";
   "$addToSet"; "$setOnInsert"].

(** The buckets of an update document: Mongo operator names, each holding a
    mapping. *)
Definition well_formed_update (d : dict) : Prop :=
  forall k val, Dict.get k d = Some val ->
                In k MONGO_UPDATE_OPERATORS /\ is_dict val = true.

(** The insert [save] sends for a document that was never persisted. *)
Definition insert_of (_to_son : Document.document -> dict)
    (self : Document.document) (write_concern : option dict)
    (w : Document.world) : Document.storage_call :=
  Document.CollectionInsert (Document.handle_of self w) (_to_son self)
                            (Document.default_write_concern write_concern).

(** A document of the collection [site] that was never persisted. *)
Definition new_site : Document.document :=
  Document.mkDocument "site" "id" "_id" false [("id", VNone)] [].

(** Shapes of a collection name. *)
Definition starts_with_underscore (s : string) : bool :=
  match s with
  | String c _ => Ascii.eqb c "_"
  | EmptyString => false
  end.

Fixpoint ends_with_underscore (s : string) : bool :=
  match s with
  | EmptyString => false
  | String c EmptyString => Ascii.eqb c "_"
  | String _ s' => ends_with_underscore s'
  end.

Fixpoint has_upper (s : string) : bool :=
  match s with
  | EmptyString => false
  | String c s' => DocumentClass.isupper c || has_upper s'
  end.

(** A document class for the examples with a schema: comments stored as
    [c], each with votes stored as [v]; both fields are required and mark
    the values they prepare. *)
Definition marking_field (db : string) : Field :=
  mkField db true None (fun _ v => VTuple [VStr "prepared"; v]).

Definition blog_cls : doc_cls :=
  fun parts =>
    match parts with
    | [a; b] =>
        if String.eqb a "comments" && String.eqb b "votes"
        then Some [LField (marking_field "c"); LField (marking_field "v")]
        else None
    | [a; s; b] =>
        if String.eqb a "comments" && String.eqb s "S" && String.eqb b "votes"
        then Some [LField (marking_field "c"); LName "S";
                   LField (marking_field "v")]
        else None
    | _ => None
    end.

(** Collaborators for the lifecycle examples: a storage in which the
    document of [site] is gone, and a driver whose delete fails. *)
Definition nothing_found (collection : string) (spec : dict)
  : result (option dict) := Ok None.

Definition failing_delete (collection : string) (filter write_concern : dict)
  : Lifecycle.delete_answer := Lifecycle.OperationFailure.

Definition site_instance (data : dict) : Lifecycle.instance :=
  Lifecycle.mkInstance (site_doc data) false.

(** The Mongo name of an update operator token (lines 156-168). *)
Definition canonical (op : string) : string :=
  if String.eqb op "pull_all" then "pullAll"
  else if String.eqb op "dec" then "inc"
  else if String.eqb op "add_to_set" then "addToSet"
  else if String.eqb op "set_on_insert" then "setOnInsert"
  else op.


(** Keyword arguments sorted by key. *)
Definition key_le (a b : string * value) : Prop :=
  String.leb (fst a) (fst b) = true.

(** Two dictionaries with the same content as mappings: every key is looked
    up alike in both.  This is all the program determines of a plain
    dictionary, whose keys are iterated in an order of the interpreter's. *)
Definition same_mapping (d1 d2 : dict) : Prop :=
  forall k : string, Dict.get k d1 = Dict.get k d2.

(* ================================================================== *)
(** * Dictionaries: lookup after update *)
(* ================================================================== *)

Section DictFacts.

Lemma get_set_same (k : string) (v : value) (d : dict) :
  Dict.get k (Dict.set k v d) = Some v.
Proof.
  induction d as [|[k' v'] d IH]; simpl.
  - now rewrite String.eqb_refl.
  - destruct (String.eqb k k') eqn:E; simpl.
    + now rewrite String.eqb_refl.
    + now rewrite E.
Qed.

Lemma get_set_other (k k0 : string) (v : value) (d : dict) :
  String.eqb k0 k = false ->
  Dict.get k0 (Dict.set k v d) = Dict.get k0 d.
Proof.
  intros Hne. induction d as [|[k' v'] d IH]; simpl.
  - now rewrite Hne.
  - destruct (String.eqb k k') eqn:E; simpl.
    + apply String.eqb_eq in E. subst k'. now rewrite Hne.
    + now rewrite IH.
Qed.

Lemma get_set (k k0 : string) (v : value) (d : dict) :
  Dict.get k0 (Dict.set k v d)
  = if String.eqb k0 k then Some v else Dict.get k0 d.
Proof.
  destruct (String.eqb k0 k) eqn:E.
  - apply String.eqb_eq in E. subst. apply get_set_same.
  - now apply get_set_other.
Qed.

Lemma get_remove_same (k : string) (d : dict) :
  Dict.get k (Dict.remove k d) = None.
Proof.
  induction d as [|[k' v'] d IH]; simpl; [reflexivity|].
  destruct (String.eqb k k') eqn:E; simpl; [assumption|].
  now rewrite E.
Qed.

Lemma get_remove_other (k k0 : string) (d : dict) :
  String.eqb k0 k = false ->
  Dict.get k0 (Dict.remove k d) = Dict.get k0 d.
Proof.
  intros Hne. induction d as [|[k' v'] d IH]; simpl; [reflexivity|].
  destruct (String.eqb k k') eqn:E; simpl.
  - apply String.eqb_eq in E. subst k'. now rewrite Hne.
  - now rewrite IH.
Qed.

Lemma set_absent (k : string) (v : value) (d : dict) :
  Dict.get k d = None -> Dict.set k v d = d ++ [(k, v)].
Proof.
  induction d as [|[k' v'] d IH]; simpl; [reflexivity|].
  destruct (String.eqb k k'); [discriminate|].
  intros H. now rewrite IH.
Qed.

Lemma last_key_snoc (d : dict) (k : string) (v : value) :
  last_key (d ++ [(k, v)]) = Some k.
Proof. unfold last_key. now rewrite rev_app_distr. Qed.

(** [d.update(other)]: the last binding of a key in [other] wins, and a key
    [other] lacks keeps its value. *)
Lemma get_update (k : string) (other d : dict) :
  Dict.get k (Dict.update d other)
  = match Dict.get k (rev other) with
    | Some v => Some v
    | None => Dict.get k d
    end.
Proof.
  unfold Dict.update. revert d.
  induction other as [|[k' v'] other IH] using rev_ind; intros d.
  - reflexivity.
  - rewrite fold_left_app, rev_app_distr. simpl.
    rewrite get_set. destruct (String.eqb k k'); [reflexivity|]. apply IH.
Qed.

Lemma get_app (k : string) (d1 d2 : dict) :
  Dict.get k (d1 ++ d2)
  = match Dict.get k d1 with Some v => Some v | None => Dict.get k d2 end.
Proof.
  induction d1 as [|[k' v'] d1 IH]; simpl; [reflexivity|].
  now destruct (String.eqb k k').
Qed.

Lemma get_not_in_keys (k : string) (d : dict) :
  ~ In k (Dict.keys d) -> Dict.get k d = None.
Proof.
  induction d as [|[k' v'] d IH]; simpl; [reflexivity|].
  intros H. destruct (String.eqb k k') eqn:E.
  - apply String.eqb_eq in E. subst. tauto.
  - apply IH. tauto.
Qed.

(** In a mapping whose keys are distinct, lookup does not depend on the
    direction of the scan. *)
Lemma get_rev_nodup (k : string) (d : dict) :
  NoDup (Dict.keys d) -> Dict.get k (rev d) = Dict.get k d.
Proof.
  induction d as [|[k' v'] d IH]; simpl; [reflexivity|].
  intros H. inversion H as [|? ? Hnotin Hnd]; subst.
  rewrite get_app, IH by assumption. simpl.
  destruct (String.eqb k k') eqn:E.
  - apply String.eqb_eq in E. subst k'. now rewrite get_not_in_keys.
  - now destruct (Dict.get k d).
Qed.

End DictFacts.

(* ================================================================== *)
(** * The update compiler *)
(* ================================================================== *)

Section UpdateFacts.

Lemma nest_reversed_nest (parts : list string) (v : value) :
  nest_reversed parts v = nest parts v.
Proof.
  unfold nest_reversed.
  rewrite <- (rev_involutive parts) at 2.
  rewrite <- fold_left_rev_right, rev_involutive.
  induction parts as [|p ps IH]; simpl; [reflexivity|].
  now rewrite IH.
Qed.

Lemma contains_after (sub a b : string) :
  String.prefix sub (sub ++ b) = true ->
  Str.contains sub (a ++ sub ++ b) = true.
Proof.
  intros Hp. induction a as [|c a IH]; simpl.
  - destruct (sub ++ b)%string; simpl in *; now rewrite Hp.
  - rewrite IH. apply orb_true_r.
Qed.

Lemma prefix_dot (b : string) : String.prefix "." ("." ++ b) = true.
Proof. simpl. now destruct b. Qed.

(** A path of two segments or more has a dot in its joined key. *)
Lemma dot_in_joined (parts : list string) :
  (1 < List.length parts)%nat -> Str.contains "." (Str.join "." parts) = true.
Proof.
  destruct parts as [|a [|b rest]]; simpl; try lia.
  intros _. unfold Str.join. simpl.
  apply (contains_after "." a), prefix_dot.
Qed.

Lemma update_pair_resolved (cls : option doc_cls) (key : string) (v : value)
    (op : option string) (parts : list string) (v' : value) (mongo_update : dict) :
  String.eqb key "__raw__" = false ->
  update_resolve cls key v = Ok (op, parts, v') ->
  update_pair cls mongo_update (key, v)
  = bind (update_emit op parts v')
         (fun bv => update_merge mongo_update (fst bv) (snd bv)).
Proof.
  intros Hraw Hres. unfold update_pair. rewrite Hraw, Hres. simpl.
  now destruct (update_emit op parts v') as [[b w]|e].
Qed.

(** C5: the [dec] operator becomes [$inc]; a positive number has its sign
    flipped and any other number is passed through unchanged, whatever
    path follows the operator; in particular [dec__hits=1] compiles to
    [{"$inc": {"hits": -1}}]. *)
Theorem dec_is_inc_of_negated :
  (forall (rest : list string) (n : Z),
      update_operator ("dec" :: rest) (VInt n)
      = Ok (Some "inc", rest, VInt (if (n >? 0)%Z then (- n)%Z else n)))
  /\ (forall n : Z,
         update None [("dec__hits", VInt n)]
         = Ok [("$inc",
                VDict [("hits", VInt (if (n >? 0)%Z then (- n)%Z else n))])])
  /\ update None [("dec__hits", VInt 1)]
     = Ok [("$inc", VDict [("hits", VInt (-1))])].
Proof.
  split; [|split].
  - intros rest n. unfold update_operator. simpl.
    now destruct (n >? 0)%Z.
  - intros n. unfold update. simpl.
    unfold update_pair, update_resolve. simpl.
    now destruct (n >? 0)%Z.
  - reflexivity.
Qed.

(** C4: for an update pair whose operator contains [pull] and whose
    resolved path has more than one segment, [pullAll] raises
    InvalidQueryError, and [pull] puts into its bucket the nested value
    [nest parts v] (first segment outermost, match value innermost), whose
    only key is the first segment and not the dotted key. *)
Theorem pull_on_deep_path (cls : option doc_cls) (key : string) (v : value)
    (op : string) (parts : list string) (v' : value) (mongo_update : dict) :
  String.eqb key "__raw__" = false ->
  update_resolve cls key v = Ok (Some op, parts, v') ->
  Str.contains "pull" op = true ->
  (1 < List.length parts)%nat ->
  (op = "pullAll" ->
     update_pair cls mongo_update (key, v) = Raise InvalidQueryError)
  /\ (op <> "pullAll" ->
        update_emit (Some op) parts v' = Ok (("$" ++ op)%string, nest parts v')
        /\ update_pair cls mongo_update (key, v)
           = update_merge mongo_update ("$" ++ op)%string (nest parts v')
        /\ exists inner, nest parts v' = VDict [(hd "" parts, inner)]).
Proof.
  intros Hraw Hres Hpull Hlen.
  pose proof (dot_in_joined parts Hlen) as Hdot.
  assert (Hemit : update_emit (Some op) parts v'
                  = if String.eqb op "pullAll" then Raise InvalidQueryError
                    else Ok (("$" ++ op)%string, nest parts v')).
  { unfold update_emit. rewrite Hpull, Hdot. simpl.
    destruct (String.eqb op "pullAll"); [reflexivity|].
    simpl. now rewrite nest_reversed_nest. }
  rewrite (update_pair_resolved _ _ _ _ _ _ _ Hraw Hres), Hemit.
  split.
  - intros ->. reflexivity.
  - intros Hne. apply String.eqb_neq in Hne. rewrite Hne.
    split; [reflexivity|]. split; [reflexivity|].
    destruct parts as [|p ps]; simpl in *; [lia|]. now eexists.
Qed.

Lemma pull_on_deep_path_witness :
  update_pair None [] ("pull__comments__vote__lt", VInt 1)
  = update_merge [] "$pull"
      (VDict [("comments", VDict [("vote", VDict [("$lt", VInt 1)])])]).
Proof.
  refine (proj1 (proj2 (proj2
    (pull_on_deep_path None "pull__comments__vote__lt" (VInt 1) "pull"
       ["comments"; "vote"] (VDict [("$lt", VInt 1)]) []
       eq_refl eq_refl eq_refl _) _))).
  - simpl. lia.
  - discriminate.
Defined.

End UpdateFacts.

(* ================================================================== *)
(** * The query compiler: constraints on one storage key *)
(* ================================================================== *)

Section QueryMerge.

Lemma query_pair_resolved (cls : option doc_cls) (key : string) (v : value)
    (op : option string) (skey : string) (v' : value)
    (mongo_query : dict) (merge_query : merge_dict) :
  String.eqb key "__raw__" = false ->
  query_resolve cls key v = Ok (op, skey, v') ->
  query_pair cls (mongo_query, merge_query) (key, v)
  = query_store mongo_query merge_query op skey v'.
Proof.
  intros Hraw Hres. unfold query_pair. now rewrite Hraw, Hres.
Qed.

Lemma keys_set (k : string) (v : value) (d : dict) :
  NoDup (Dict.keys d) -> NoDup (Dict.keys (Dict.set k v d)).
Proof.
  assert (Hin : forall d k0, In k0 (Dict.keys (Dict.set k v d))
                             -> k0 = k \/ In k0 (Dict.keys d)).
  { clear d. induction d as [|[k' v'] d IH]; simpl; intros k0 H.
    - intuition congruence.
    - destruct (String.eqb k k') eqn:E; simpl in H.
      + apply String.eqb_eq in E. subst. intuition congruence.
      + destruct H as [H|H]; [tauto|]. apply IH in H. tauto. }
  induction d as [|[k' v'] d IH]; simpl; intros Hnd.
  - constructor; [tauto | constructor].
  - inversion Hnd as [|? ? Hnotin Hnd']; subst.
    destruct (String.eqb k k') eqn:E; simpl.
    + apply String.eqb_eq in E. subst. now constructor.
    + constructor; [|now apply IH].
      intros H. apply Hin in H. destruct H as [->|H]; [|tauto].
      now rewrite String.eqb_refl in E.
Qed.

Lemma keys_update (d other : dict) :
  NoDup (Dict.keys d) -> NoDup (Dict.keys (Dict.update d other)).
Proof.
  unfold Dict.update. revert d.
  induction other as [|[k v] other IH]; simpl; intros d H; [assumption|].
  apply IH. now apply keys_set.
Qed.

(** The [SON] built at lines 118-122, before [$maxDistance] is added. *)
Lemma get_value_son (k : string) (value_dict son : dict) :
  Dict.get k
    (fold_left (fun son kv =>
                  if String.eqb (fst kv) "$maxDistance" then son
                  else Dict.set (fst kv) (snd kv) son) value_dict son)
  = if String.eqb k "$maxDistance" then Dict.get k son
    else match Dict.get k (rev value_dict) with
         | Some x => Some x
         | None => Dict.get k son
         end.
Proof.
  induction value_dict as [|[k' v'] d IH] using rev_ind.
  - simpl. now destruct (String.eqb k "$maxDistance").
  - rewrite fold_left_app, rev_app_distr. simpl.
    destruct (String.eqb k' "$maxDistance") eqn:E.
    + rewrite IH. destruct (String.eqb k "$maxDistance") eqn:E'; [reflexivity|].
      apply String.eqb_eq in E. subst k'. now rewrite E'.
    + rewrite get_set, IH.
      destruct (String.eqb k k') eqn:E'; [|reflexivity].
      apply String.eqb_eq in E'. subst k'. now rewrite E.
Qed.

Lemma maxdistance_last_is_last (d : dict) (m : value) :
  Dict.get "$maxDistance" d = Some m ->
  exists front, maxdistance_last d = front ++ [("$maxDistance", m)]
                /\ Dict.get "$maxDistance" front = None.
Proof.
  intros H. unfold maxdistance_last. rewrite H.
  eexists. split.
  - apply set_absent. now rewrite get_value_son.
  - now rewrite get_value_son.
Qed.

Lemma get_maxdistance_last (k : string) (d : dict) :
  NoDup (Dict.keys d) ->
  Dict.get k (maxdistance_last d) = Dict.get k d.
Proof.
  intros Hnd. unfold maxdistance_last.
  destruct (Dict.get "$maxDistance" d) as [m|] eqn:Hm; [|reflexivity].
  rewrite get_set, get_value_son.
  destruct (String.eqb k "$maxDistance") eqn:E.
  - apply String.eqb_eq in E. now subst.
  - rewrite get_rev_nodup by assumption. now destruct (Dict.get k d).
Qed.

Lemma get_none_keys (k : string) (d : dict) :
  Dict.get k d = None -> ~ In k (Dict.keys d).
Proof.
  induction d as [|[k' v'] d IH]; simpl; [tauto|].
  destruct (String.eqb k k') eqn:E; [discriminate|].
  apply String.eqb_neq in E. intros H [Hk|Hin]; [congruence|].
  now apply IH.
Qed.

Lemma get_rev_none (k : string) (d : dict) :
  Dict.get k (rev d) = None -> Dict.get k d = None.
Proof.
  intros H. apply get_not_in_keys. apply get_none_keys in H.
  unfold Dict.keys in *. rewrite map_rev in H.
  intros Hin. apply H. now apply -> in_rev.
Qed.

(** After [existing.update(vd)], a key either of them has is present. *)
Lemma update_keeps_key (k : string) (existing vd : dict) :
  Dict.has k existing = true \/ Dict.has k vd = true ->
  exists m, Dict.get k (Dict.update existing vd) = Some m.
Proof.
  unfold Dict.has. rewrite get_update. intros H.
  destruct (Dict.get k (rev vd)) as [x|] eqn:Hr; [now eexists|].
  apply get_rev_none in Hr. rewrite Hr in H.
  destruct (Dict.get k existing) as [x|]; [now eexists|].
  destruct H; discriminate.
Qed.

(** C2: when a later pair carries operator entries [vd] for a storage key
    whose existing value is an operator document [existing], the pair is
    merged into that document, in its place in the result: every operator
    of the later pair is present with the later value, every other
    operator keeps its value; and [age__gt=1, age__lt=10] compiles to
    [{"age": {"$gt": 1, "$lt": 10}}] in whichever order they are passed. *)
Theorem operators_on_one_key_merge :
  (forall (cls : option doc_cls) (mongo_query : dict) (merge_query : merge_dict)
          (key : string) (v : value) (o skey : string) (vd existing : dict),
      String.eqb key "__raw__" = false ->
      query_resolve cls key v = Ok (Some o, skey, VDict vd) ->
      Dict.get skey mongo_query = Some (VDict existing) ->
      NoDup (Dict.keys existing) ->
      NoDup (Dict.keys vd) ->
      exists merged,
        query_pair cls (mongo_query, merge_query) (key, v)
        = Ok (Dict.set skey (VDict merged) mongo_query, merge_query)
        /\ forall k, Dict.get k merged
                     = match Dict.get k vd with
                       | Some x => Some x
                       | None => Dict.get k existing
                       end)
  /\ query None [("age__gt", VInt 1); ("age__lt", VInt 10)]
     = Ok [("age", VDict [("$gt", VInt 1); ("$lt", VInt 10)])]
  /\ query None [("age__lt", VInt 10); ("age__gt", VInt 1)]
     = Ok [("age", VDict [("$gt", VInt 1); ("$lt", VInt 10)])].
Proof.
  split; [|split; reflexivity].
  intros cls mq merge key v o skey vd existing Hraw Hres Hget Hnd Hndv.
  rewrite (query_pair_resolved _ _ _ _ _ _ _ _ Hraw Hres).
  unfold query_store. rewrite Hget. simpl.
  eexists. split; [reflexivity|].
  intros k. rewrite get_maxdistance_last by now apply keys_update.
  rewrite get_update. now rewrite get_rev_nodup.
Qed.

Lemma operators_on_one_key_merge_witness :
  exists merged,
    query_pair None ([("age", VDict [("$gt", VInt 1)])], []) ("age__lt", VInt 10)
    = Ok (Dict.set "age" (VDict merged) [("age", VDict [("$gt", VInt 1)])], [])
    /\ forall k, Dict.get k merged
                 = match Dict.get k [("$lt", VInt 10)] with
                   | Some x => Some x
                   | None => Dict.get k [("$gt", VInt 1)]
                   end.
Proof.
  apply (proj1 operators_on_one_key_merge None
           [("age", VDict [("$gt", VInt 1)])] [] "age__lt" (VInt 10)
           "lt" "age" [("$lt", VInt 10)] [("$gt", VInt 1)]
           eq_refl eq_refl eq_refl).
  - repeat constructor; simpl; tauto.
  - repeat constructor; simpl; tauto.
Defined.

(** C6: when an operator pair is merged into the operator document of its
    storage key and either side has [$maxDistance], the document stored
    for the key has [$maxDistance] as its last key; on a geo field this
    holds whether [max_distance] is processed before the other geo
    operator ([near], [within_distance]) or after it ([geo_within_box]). *)
Theorem max_distance_comes_last :
  (forall (cls : option doc_cls) (mongo_query : dict) (merge_query : merge_dict)
          (key : string) (v : value) (o skey : string) (vd existing : dict),
      String.eqb key "__raw__" = false ->
      query_resolve cls key v = Ok (Some o, skey, VDict vd) ->
      Dict.get skey mongo_query = Some (VDict existing) ->
      Dict.has "$maxDistance" existing = true
      \/ Dict.has "$maxDistance" vd = true ->
      exists merged,
        query_pair cls (mongo_query, merge_query) (key, v)
        = Ok (Dict.set skey (VDict merged) mongo_query, merge_query)
        /\ last_key merged = Some "$maxDistance")
  /\ query (Some (place_cls "2dsphere"))
           [("location__near", VList [VInt 1; VInt 2]);
            ("location__max_distance", VInt 5)]
     = Ok [("loc", VDict [("$near", geometry "Point" (VList [VInt 1; VInt 2]));
                          ("$maxDistance", VInt 5)])]
  /\ query (Some (place_cls "2dsphere"))
           [("location__max_distance", VInt 5);
            ("location__geo_within_box", VList [VInt 0; VInt 9])]
     = Ok [("loc", VDict [("$geoWithin", wrap "$box" (VList [VInt 0; VInt 9]));
                          ("$maxDistance", VInt 5)])]
  /\ query (Some (place_cls GEO2D))
           [("location__within_distance", VList [VInt 1; VInt 2]);
            ("location__max_distance", VInt 5)]
     = Ok [("loc", VDict [("$within", wrap "$center" (VList [VInt 1; VInt 2]));
                          ("$maxDistance", VInt 5)])].
Proof.
  split; [|repeat split; reflexivity].
  intros cls mq merge key v o skey vd existing Hraw Hres Hget Hmax.
  rewrite (query_pair_resolved _ _ _ _ _ _ _ _ Hraw Hres).
  unfold query_store. rewrite Hget. simpl.
  eexists. split; [reflexivity|].
  destruct (update_keeps_key _ _ _ Hmax) as [m Hm].
  destruct (maxdistance_last_is_last _ _ Hm) as [front [-> _]].
  apply last_key_snoc.
Qed.

Lemma max_distance_comes_last_witness :
  exists merged,
    query_pair (Some (place_cls GEO2D))
               ([("loc", VDict [("$maxDistance", VInt 5)])], [])
               ("location__near", VList [VInt 1; VInt 2])
    = Ok (Dict.set "loc" (VDict merged)
                   [("loc", VDict [("$maxDistance", VInt 5)])], [])
    /\ last_key merged = Some "$maxDistance".
Proof.
  apply (proj1 max_distance_comes_last (Some (place_cls GEO2D))
           [("loc", VDict [("$maxDistance", VInt 5)])] []
           "location__near" (VList [VInt 1; VInt 2]) "near" "loc"
           [("$near", VList [VInt 1; VInt 2])] [("$maxDistance", VInt 5)]
           eq_refl eq_refl eq_refl).
  left. reflexivity.
Defined.

(** C1 (the code at a failing input): with two storage keys in collision,
    the fragments of the second key are appended to [$and] as one list
    element, so [$and] is not an array of single-key documents. *)
Theorem second_collision_nests_a_list :
  query None [("a", VInt 1); ("a__gt", VInt 0);
              ("b", VInt 2); ("b__lt", VInt 5)]
  = Ok [("$and",
         VList [VDict [("a", VDict [("$gt", VInt 0)])];
                VDict [("a", VInt 1)];
                VList [VDict [("b", VDict [("$lt", VInt 5)])];
                       VDict [("b", VInt 2)]]])]
  /\ forallb is_single_key_doc
       [VDict [("a", VDict [("$gt", VInt 0)])];
        VDict [("a", VInt 1)];
        VList [VDict [("b", VDict [("$lt", VInt 5)])];
               VDict [("b", VInt 2)]]] = false.
Proof. split; reflexivity. Qed.

End QueryMerge.

(* ================================================================== *)
(** * Numeric path segments *)
(* ================================================================== *)

Section NumericSegments.

Lemma list_insert_end (i : nat) (x : string) (l : list string) :
  (List.length l <= i)%nat -> list_insert i x l = l ++ [x].
Proof.
  intros H. unfold list_insert.
  now rewrite firstn_all2, skipn_all2 by assumption.
Qed.

Lemma list_insert_middle (x : string) (pre post : list string) :
  list_insert (List.length pre) x (pre ++ post) = pre ++ x :: post.
Proof.
  unfold list_insert.
  rewrite firstn_app, skipn_app, Nat.sub_diag, firstn_all, skipn_all.
  simpl. now rewrite app_nil_r.
Qed.

(** Once the names are used up, every remaining index is past the end and
    its segment is appended. *)
Lemma reinsert_past_end (original : list string) :
  forall (k : nat) (pre : list string),
    (List.length pre <= k)%nat ->
    reinsert (indices_from k original) pre = pre ++ in_place original [].
Proof.
  unfold reinsert, indices_from.
  induction original as [|seg rest IH]; intros k pre Hlen; simpl.
  - now rewrite app_nil_r.
  - destruct (Str.isdigit seg); simpl.
    + rewrite list_insert_end by assumption.
      rewrite IH by (rewrite length_app; simpl; lia).
      now rewrite <- app_assoc.
    + apply IH. lia.
Qed.

Lemma reinsert_in_place_from (original : list string) :
  forall (k : nat) (pre names : list string),
    List.length pre = k ->
    reinsert (indices_from k original) (pre ++ names)
    = pre ++ in_place original names.
Proof.
  induction original as [|seg rest IH]; intros k pre names Hlen.
  - reflexivity.
  - unfold reinsert, indices_from in *. simpl.
    destruct (Str.isdigit seg) eqn:Hd; simpl.
    + subst k. rewrite list_insert_middle.
      change (pre ++ seg :: names) with (pre ++ [seg] ++ names).
      rewrite app_assoc, IH by (rewrite length_app; simpl; lia).
      now rewrite <- app_assoc.
    + destruct names as [|n names'].
      * rewrite app_nil_r.
        apply (reinsert_past_end rest (S k) pre). lia.
      * change (pre ++ n :: names') with (pre ++ [n] ++ names').
        rewrite app_assoc, IH by (rewrite length_app; simpl; lia).
        now rewrite <- app_assoc.
Qed.

(** Lines 107-108 rebuild the original segment list around the names. *)
Lemma reinsert_in_place (original names : list string) :
  reinsert (digit_indices original) names = in_place original names.
Proof. apply (reinsert_in_place_from original 0 [] names). reflexivity. Qed.

(** A numeric segment stands at its original position as long as every
    other segment before it received a name. *)
Lemma in_place_position (original : list string) :
  forall (names : list string) (i : nat) (p : string),
    nth_error original i = Some p ->
    Str.isdigit p = true ->
    (List.length (without_digits (firstn i original)) <= List.length names)%nat ->
    nth_error (in_place original names) i = Some p.
Proof.
  induction original as [|seg rest IH]; intros names i p Hnth Hd Hcount.
  - destruct i; discriminate.
  - destruct i as [|i]; simpl in *.
    + injection Hnth as ->. now rewrite Hd.
    + unfold without_digits in *. simpl in Hcount.
      destruct (Str.isdigit seg); simpl in *.
      * now apply IH.
      * destruct names as [|n names']; simpl in *; [lia|].
        apply IH; [assumption..|lia].
Qed.

Lemma getitem_last_snoc (l : list string) (x : string) :
  getitem_last l = Ok x -> l = removelast l ++ [x].
Proof.
  unfold getitem_last. destruct (rev l) as [|y r] eqn:E; [discriminate|].
  intros H. injection H as ->.
  rewrite <- (rev_involutive l), E. simpl. now rewrite removelast_last.
Qed.

Lemma query_split_tokens (key : string) (idx : list (nat * string))
    (names : list string) (op : option string) (negate : bool) :
  query_split key = Ok (idx, names, op, negate) ->
  idx = digit_indices (Str.split key)
  /\ without_digits (Str.split key) = names ++ popped_tokens op negate.
Proof.
  unfold query_split.
  destruct (getitem_last (without_digits (Str.split key))) as [last|e] eqn:Hl;
    cbn [bind]; [|discriminate].
  apply getitem_last_snoc in Hl.
  destruct (Str.mem last MATCH_OPERATORS); cbn beta iota.
  - destruct (getitem_last (removelast (without_digits (Str.split key))))
      as [last'|e] eqn:Hl'; cbn [bind]; [|discriminate].
    apply getitem_last_snoc in Hl'.
    destruct (String.eqb last' "not") eqn:En; intros H; injection H as <- <- <- <-;
      (split; [reflexivity|]); unfold popped_tokens; simpl.
    + apply String.eqb_eq in En. subst last'.
      rewrite Hl at 1. rewrite Hl' at 1. now rewrite <- app_assoc.
    + exact Hl.
  - destruct (getitem_last (without_digits (Str.split key)))
      as [last'|e] eqn:Hl'; cbn [bind]; [|discriminate].
    apply getitem_last_snoc in Hl'.
    destruct (String.eqb last' "not") eqn:En; intros H; injection H as <- <- <- <-;
      (split; [reflexivity|]); unfold popped_tokens; simpl.
    + apply String.eqb_eq in En. subst last'. exact Hl'.
    + now rewrite app_nil_r.
Qed.

Lemma update_operator_slice (segments : list string) (v : value)
    (op : option string) (parts : list string) (v' : value) :
  update_operator segments v = Ok (op, parts, v') ->
  exists pre, segments = pre ++ parts /\ (List.length pre <= 1)%nat.
Proof.
  unfold update_operator. destruct segments as [|p0 rest]; [discriminate|].
  destruct (Str.mem p0 UPDATE_OPERATORS).
  - assert (Hgoal : parts = rest ->
                    exists pre, p0 :: rest = pre ++ parts
                                /\ (List.length pre <= 1)%nat).
    { intros ->. exists [p0]. split; [reflexivity | simpl; lia]. }
    repeat match goal with
           | |- context [if ?b then _ else _] => destruct b
           end;
      try (destruct (dec_value v); simpl);
      intros H; try discriminate; injection H as _ <- _; now apply Hgoal.
  - intros H. injection H as _ <- _. exists []. split; [reflexivity | simpl; lia].
Qed.

Lemma update_match_slice (segments : list string) (m : option string)
    (parts : list string) :
  update_match segments = Ok (m, parts) ->
  exists post, segments = parts ++ post /\ (List.length post <= 1)%nat.
Proof.
  unfold update_match.
  destruct (getitem_last segments) as [last|e] eqn:Hl; cbn [bind]; [|discriminate].
  apply getitem_last_snoc in Hl.
  destruct (Str.mem last COMPARISON_OPERATORS); intros H; injection H as _ <-.
  - exists [last]. split; [exact Hl | simpl; lia].
  - exists []. split; [now rewrite app_nil_r | simpl; lia].
Qed.

(** C8 (as the claim states it, for an update key): [update] looks for
    the match operator with the numeric segments still in place, so for
    [set__a__gt__0] it finds none and keeps [gt] in the path, where the
    resolver that sets numeric segments aside first extracts [gt] and
    yields the path [a.0]. *)
Lemma update_extracts_among_digits :
  update_resolve None "set__a__gt__0" (VInt 1)
  = Ok (Some "set", ["a"; "gt"; "0"], VInt 1)
  /\ update_resolve_digits_aside "set__a__gt__0" (VInt 1)
     = Ok (Some "set", ["a"; "0"], VDict [("$gt", VInt 1)])
  /\ update_resolve None "set__a__gt__0" (VInt 1)
     <> update_resolve_digits_aside "set__a__gt__0" (VInt 1).
Proof. repeat split; try reflexivity. discriminate. Qed.

Lemma query_fields_names (cls : doc_cls) (op : option string)
    (names : list string) (v : value) (parts : list string) (field : Field)
    (v' : value) :
  query_fields cls op names v = Ok (parts, field, v') ->
  exists fields, cls names = Some fields
                 /\ parts = storage_names (fun s => s) fields.
Proof.
  unfold query_fields. destruct (cls names) as [fields|]; [|discriminate].
  destruct (getitem_last (cleaned_fields fields)) as [f|]; cbn [bind];
    [|discriminate].
  match goal with
  | |- bind ?r _ = _ -> _ => destruct r; cbn [bind]; [|discriminate]
  end.
  intros H. injection H as <- _ _. now exists fields.
Qed.

(** The storage key [query] builds: the operator and the schema see the
    names without the numeric segments, and the key joins the original
    segments with the resolved names in the other slots. *)
Lemma query_resolve_key (cls : option doc_cls) (key : string) (v : value)
    (op : option string) (skey : string) (v' : value) :
  query_resolve cls key v = Ok (op, skey, v') ->
  exists (names : list string) (negate : bool) (resolved : list string),
    without_digits (Str.split key) = names ++ popped_tokens op negate
    /\ match cls with
       | None => resolved = names
       | Some c => exists fields, c names = Some fields
                                  /\ resolved = storage_names (fun s => s) fields
       end
    /\ skey = Str.join "." (in_place (Str.split key) resolved).
Proof.
  unfold query_resolve.
  destruct (query_split key) as [[[[idx names] op0] negate]|] eqn:Hs;
    cbn [bind]; [|discriminate].
  destruct (query_split_tokens _ _ _ _ _ Hs) as [-> Htok].
  destruct cls as [c|].
  - destruct (query_fields c op0 names v) as [[[parts f] v1]|] eqn:Hf;
      cbn [bind]; [|discriminate].
    destruct (query_operator (Some f) op0 v1); cbn [bind]; [|discriminate].
    intros H. injection H as <- <- _.
    exists names, negate, parts. rewrite reinsert_in_place.
    split; [exact Htok|]. split; [|reflexivity].
    destruct (query_fields_names _ _ _ _ _ _ _ Hf) as [fields [Hc ->]].
    now exists fields.
  - cbn [bind]. destruct (query_operator None op0 v); cbn [bind]; [|discriminate].
    intros H. injection H as <- <- _.
    exists names, negate, names. rewrite reinsert_in_place. now repeat split.
Qed.

Lemma update_fields_names (cls : doc_cls) (op : option string)
    (names : list string) (v : value) (parts : list string) (v' : value) :
  update_fields cls op names v = Ok (parts, v') ->
  exists fields,
    cls names = Some fields
    /\ parts = storage_names (fun s => if String.eqb s "S" then "$" else s)
                             fields.
Proof.
  unfold update_fields. destruct (cls names) as [fields|]; [|discriminate].
  destruct (getitem_last (cleaned_fields fields)) as [f|]; cbn [bind];
    [|discriminate].
  match goal with
  | |- bind ?r _ = _ -> _ => destruct r; cbn [bind]; [|discriminate]
  end.
  intros H. injection H as <- _. now exists fields.
Qed.

(** The path [update] builds: the update operator and the match operator
    are looked for in the split key as it is, numeric segments included, and
    what lies between them is the path without a class, and what the schema
    is asked to resolve with one. *)
Lemma update_resolve_path (cls : option doc_cls) (key : string) (v : value)
    (op : option string) (parts : list string) (v' : value) :
  update_resolve cls key v = Ok (op, parts, v') ->
  exists pre names post,
    Str.split key = pre ++ names ++ post
    /\ (List.length pre <= 1)%nat /\ (List.length post <= 1)%nat
    /\ match cls with
       | None => parts = names
       | Some c =>
           exists fields,
             c names = Some fields
             /\ parts = storage_names
                          (fun s => if String.eqb s "S" then "$" else s) fields
       end.
Proof.
  unfold update_resolve.
  destruct (update_operator (Str.split key) v) as [[[op0 parts0] v0]|e] eqn:Hop;
    cbn [bind]; [|discriminate].
  destruct (update_match parts0) as [[m parts1]|e] eqn:Hm;
    cbn [bind]; [|discriminate].
  destruct (update_operator_slice _ _ _ _ _ Hop) as [pre [Hpre Hlpre]].
  destruct (update_match_slice _ _ _ Hm) as [post [Hpost Hlpost]].
  destruct cls as [c|].
  - destruct (update_fields c op0 parts1 v0) as [[parts2 v1]|e] eqn:Hf;
      cbn [bind]; [|discriminate].
    intros H. injection H as _ <- _.
    exists pre, parts1, post. rewrite Hpre, Hpost.
    repeat split; try assumption.
    exact (update_fields_names _ _ _ _ _ _ Hf).
  - cbn [bind]. intros H. injection H as _ <- _.
    exists pre, parts1, post. rewrite Hpre, Hpost. now repeat split.
Qed.

(** C8 (amended): for a filter key, [query] takes the operator and the
    negation marker from the segments without the numeric ones, hands only
    those names to the schema, and puts every numeric segment back around
    whatever names the path resolves to: the storage key joins the original
    segment list with the names in the other slots, and a numeric segment
    is at its original position as long as all the segments before it were
    kept.  [update] never removes numeric segments: the update operator and
    a trailing match operator are taken from the split key as it is, and
    what is left is a contiguous slice of the split key with every numeric
    segment of it in place; without a document class that slice is the
    path, with one the slice is what the schema is given and the path is
    the storage names of what it answers.  Either way
    [posts__1__comments__0__name] resolves to [posts.1.comments.0.name]
    without a class. *)
Theorem numeric_segments_stay_in_place :
  (forall (key : string) (idx : list (nat * string)) (names : list string)
          (op : option string) (negate : bool),
      query_split key = Ok (idx, names, op, negate) ->
      without_digits (Str.split key) = names ++ popped_tokens op negate
      /\ (forall resolved : list string,
             reinsert idx resolved = in_place (Str.split key) resolved)
      /\ (forall (resolved : list string) (i : nat) (p : string),
             nth_error (Str.split key) i = Some p ->
             Str.isdigit p = true ->
             (List.length (without_digits (firstn i (Str.split key)))
              <= List.length resolved)%nat ->
             nth_error (reinsert idx resolved) i = Some p))
  /\ (forall (cls : option doc_cls) (key : string) (v : value)
             (op : option string) (skey : string) (v' : value),
         query_resolve cls key v = Ok (op, skey, v') ->
         exists (names : list string) (negate : bool) (resolved : list string),
           without_digits (Str.split key) = names ++ popped_tokens op negate
           /\ match cls with
              | None => resolved = names
              | Some c =>
                  exists fields, c names = Some fields
                                 /\ resolved = storage_names (fun s => s) fields
              end
           /\ skey = Str.join "." (in_place (Str.split key) resolved))
  /\ (forall (cls : option doc_cls) (key : string) (v : value)
             (op : option string) (parts : list string) (v' : value),
         update_resolve cls key v = Ok (op, parts, v') ->
         exists pre names post,
           Str.split key = pre ++ names ++ post
           /\ (List.length pre <= 1)%nat /\ (List.length post <= 1)%nat
           /\ match cls with
              | None => parts = names
              | Some c =>
                  exists fields,
                    c names = Some fields
                    /\ parts = storage_names
                                 (fun s => if String.eqb s "S" then "$" else s)
                                 fields
              end)
  /\ query None [("posts__1__comments__0__name", VStr "x")]
     = Ok [("posts.1.comments.0.name", VStr "x")]
  /\ query None [("posts__1__comments__0__name__gt", VStr "x")]
     = Ok [("posts.1.comments.0.name", VDict [("$gt", VStr "x")])]
  /\ update None [("set__posts__1__comments__0__name", VStr "x")]
     = Ok [("$set", VDict [("posts.1.comments.0.name", VStr "x")])].
Proof.
  split; [|split; [exact query_resolve_key
                  |split; [exact update_resolve_path
                          |repeat split; reflexivity]]].
  intros key idx names op negate H.
  destruct (query_split_tokens _ _ _ _ _ H) as [-> Htok].
  split; [exact Htok|]. split.
  - intros resolved. apply reinsert_in_place.
  - intros resolved i p Hnth Hd Hcount.
    rewrite reinsert_in_place. now apply in_place_position.
Qed.

Lemma numeric_segments_stay_in_place_witness :
  without_digits (Str.split "posts__1__comments__0__name__not__gt")
  = ["posts"; "comments"; "name"] ++ popped_tokens (Some "gt") true
  /\ (forall resolved : list string,
         reinsert [(1, "1"); (3, "0")] resolved
         = in_place (Str.split "posts__1__comments__0__name__not__gt") resolved)
  /\ (forall (resolved : list string) (i : nat) (p : string),
         nth_error (Str.split "posts__1__comments__0__name__not__gt") i = Some p ->
         Str.isdigit p = true ->
         (List.length (without_digits
                         (firstn i (Str.split "posts__1__comments__0__name__not__gt")))
          <= List.length resolved)%nat ->
         nth_error (reinsert [(1, "1"); (3, "0")] resolved) i = Some p).
Proof.
  exact (proj1 numeric_segments_stay_in_place
           "posts__1__comments__0__name__not__gt"
           [(1, "1"); (3, "0")] ["posts"; "comments"; "name"] (Some "gt") true
           eq_refl).
Defined.

End NumericSegments.

(* ================================================================== *)
(** * Geometry inference *)
(* ================================================================== *)

Section Geometry.

(** C7: on a mapping, [_infer_geometry] returns it unchanged when it has a
    [$geometry] key, wraps it as [{"$geometry": value}] when it has both
    [type] and [coordinates], and raises InvalidQueryError otherwise; on a
    list, it answers Polygon when [value[0][0][0]] can be read, else
    LineString when [value[0][0]] can, else Point when [value[0]] can, and
    raises InvalidQueryError when not even that; every other value raises
    InvalidQueryError. *)
Theorem infer_geometry_by_shape (v : value) :
  (forall d, v = VDict d ->
     (Dict.has "$geometry" d = true -> _infer_geometry v = Ok v)
     /\ (Dict.has "$geometry" d = false ->
         Dict.has "type" d = true -> Dict.has "coordinates" d = true ->
         _infer_geometry v = Ok (VDict [("$geometry", v)]))
     /\ (Dict.has "$geometry" d = false ->
         Dict.has "type" d = false \/ Dict.has "coordinates" d = false ->
         _infer_geometry v = Raise InvalidQueryError))
  /\ (forall l, v = VList l ->
     (succeeds (index3 v) = true ->
        _infer_geometry v
        = Ok (VDict [("$geometry",
                      VDict [("type", VStr "Polygon"); ("coordinates", v)])]))
     /\ (succeeds (index3 v) = false -> succeeds (index2 v) = true ->
         _infer_geometry v
         = Ok (VDict [("$geometry",
                       VDict [("type", VStr "LineString"); ("coordinates", v)])]))
     /\ (succeeds (index2 v) = false -> succeeds (index1 v) = true ->
         _infer_geometry v
         = Ok (VDict [("$geometry",
                       VDict [("type", VStr "Point"); ("coordinates", v)])]))
     /\ (succeeds (index1 v) = false ->
         _infer_geometry v = Raise InvalidQueryError))
  /\ ((forall d, v <> VDict d) -> (forall l, v <> VList l) ->
      _infer_geometry v = Raise InvalidQueryError).
Proof.
  split; [|split].
  - intros d ->. simpl. repeat split.
    + now intros ->.
    + now intros -> -> ->.
    + intros -> [-> | ->]; [rewrite andb_false_r|]; reflexivity.
  - intros l ->.
    assert (H32 : succeeds (index2 (VList l)) = false ->
                  succeeds (index3 (VList l)) = false).
    { unfold index3, index2. destruct (getitem0 (VList l)) as [a|]; simpl;
        [|reflexivity].
      now destruct (getitem0 a). }
    assert (H21 : succeeds (index1 (VList l)) = false ->
                  succeeds (index2 (VList l)) = false).
    { unfold index2, index1. now destruct (getitem0 (VList l)). }
    unfold _infer_geometry, geometry. repeat split.
    + now intros ->.
    + now intros -> ->.
    + intros H2 H1. now rewrite (H32 H2), H2, H1.
    + intros H1. now rewrite (H32 (H21 H1)), (H21 H1), H1.
  - intros Hd Hl. destruct v; try reflexivity.
    + now destruct (Hl l).
    + now destruct (Hd d).
Qed.

Lemma infer_geometry_by_shape_witness :
  _infer_geometry (VList [VList [VInt 1; VInt 2]; VList [VInt 3; VInt 4]])
  = Ok (VDict [("$geometry",
                VDict [("type", VStr "LineString");
                       ("coordinates",
                        VList [VList [VInt 1; VInt 2]; VList [VInt 3; VInt 4]])])]).
Proof.
  exact (proj1 (proj2 (proj1 (proj2
           (infer_geometry_by_shape
              (VList [VList [VInt 1; VInt 2]; VList [VInt 3; VInt 4]])))
           _ eq_refl)) eq_refl eq_refl).
Defined.

End Geometry.

(* ================================================================== *)
(** * [Document.save], [Document.update], [Document.to_dbref] *)
(* ================================================================== *)

Section DocumentFacts.

Import Document.

Variable pk : document -> value.
Variable _delta : document -> dict * dict.
Variable _to_son : document -> dict.
Variable storage : storage_call -> result value.

(** The guard of [update] and [to_dbref] fires on any falsy primary key,
    and leaves the world as it was. *)
Lemma falsy_pk_raises (self : document) (kwargs : list (string * value))
    (w : world) :
  truthy (pk self) = false ->
  Document.update pk storage self kwargs w = (Raise OperationError, w)
  /\ to_dbref pk self w = (Raise OperationError, w).
Proof.
  intros H. unfold Document.update, to_dbref. now rewrite H.
Qed.

(** C9: on a document whose primary key is unset, [update] and [to_dbref]
    raise OperationError and the world is unchanged: no storage call has
    been recorded and no collection handle has been looked up. *)
Theorem unsaved_document_is_refused (self : document)
    (kwargs : list (string * value)) (w : world) :
  pk self = VNone ->
  Document.update pk storage self kwargs w = (Raise OperationError, w)
  /\ to_dbref pk self w = (Raise OperationError, w)
  /\ calls (snd (Document.update pk storage self kwargs w)) = calls w
  /\ calls (snd (to_dbref pk self w)) = calls w.
Proof.
  intros H.
  destruct (falsy_pk_raises self kwargs w) as [Hu Hr]; [now rewrite H|].
  rewrite Hu, Hr. now repeat split.
Qed.

Lemma set_key_absent_after_remove (self : document) (s : dict) :
  Dict.get "$set" (update_query_of _delta self) = Some (VDict s) ->
  Dict.get (db_id_field self) s = None.
Proof.
  unfold update_query_of. destruct (_delta self) as [sets unsets].
  destruct (Dict.remove (db_id_field self) sets) as [|kv rs] eqn:Hr;
    destruct unsets as [|u us]; simpl; try discriminate;
    intros H; injection H as <-; rewrite <- Hr; apply get_remove_same.
Qed.

(** C10: for a persisted document, [save] makes at most one storage call,
    a collection update carrying the update document, and only when that
    document is not empty; a [$set] entry of the update document has no
    key equal to the storage name of the primary key; and when the delta's
    set-paths and unset-paths are both empty the update document is empty,
    so the calls are what they were. *)
Theorem save_sends_only_changes (self : document)
    (write_concern : option dict) (w : world) :
  _created self = true ->
  calls (snd (save pk _delta _to_son storage self write_concern w))
  = calls w
    ++ (if nonempty (update_query_of _delta self)
        then [CollectionUpdate (handle_of self w) (_db_object_key pk self)
                (update_query_of _delta self)
                (default_write_concern write_concern)]
        else [])
  /\ (forall s, Dict.get "$set" (update_query_of _delta self) = Some (VDict s) ->
                Dict.get (db_id_field self) s = None)
  /\ (_delta self = ([], []) ->
      calls (snd (save pk _delta _to_son storage self write_concern w))
      = calls w).
Proof.
  intros Hc.
  assert (Hcalls :
    calls (snd (save pk _delta _to_son storage self write_concern w))
    = calls w
      ++ (if nonempty (update_query_of _delta self)
          then [CollectionUpdate (handle_of self w) (_db_object_key pk self)
                  (update_query_of _delta self)
                  (default_write_concern write_concern)]
          else [])).
  { unfold save, bindM, _get_collection, handle_of. rewrite Hc.
    destruct (cls_collection w) as [c|];
      destruct (nonempty (update_query_of _delta self)); unfold call, ret; simpl;
      try (now rewrite app_nil_r);
      now destruct (storage _). }
  split; [exact Hcalls|]. split.
  - apply set_key_absent_after_remove.
  - intros Hd. rewrite Hcalls. unfold update_query_of. rewrite Hd. simpl.
    now rewrite app_nil_r.
Qed.

End DocumentFacts.

Section DocumentExamples.

Import Document.

Lemma unsaved_document_is_refused_witness :
  Document.update stored_pk acknowledging (site_doc []) [("set__name", VStr "x")]
                  fresh_world
  = (Raise OperationError, fresh_world)
  /\ to_dbref stored_pk (site_doc []) fresh_world
     = (Raise OperationError, fresh_world)
  /\ calls (snd (Document.update stored_pk acknowledging (site_doc [])
                                 [("set__name", VStr "x")] fresh_world)) = []
  /\ calls (snd (to_dbref stored_pk (site_doc []) fresh_world)) = [].
Proof.
  exact (unsaved_document_is_refused stored_pk acknowledging (site_doc [])
           [("set__name", VStr "x")] fresh_world eq_refl).
Defined.

Lemma save_sends_only_changes_witness :
  calls (snd (save stored_pk renamed_delta (fun _ => []) acknowledging
                   (site_doc [("_id", VInt 7)]) None fresh_world))
  = [CollectionUpdate "site" [("_id", VInt 7)]
       [("$set", VDict [("name", VStr "test")])] [("w", VInt 1)]]
  /\ (forall s,
        Dict.get "$set" (update_query_of renamed_delta (site_doc [("_id", VInt 7)]))
        = Some (VDict s) ->
        Dict.get "_id" s = None)
  /\ (renamed_delta (site_doc [("_id", VInt 7)]) = ([], []) ->
      calls (snd (save stored_pk renamed_delta (fun _ => []) acknowledging
                       (site_doc [("_id", VInt 7)]) None fresh_world))
      = []).
Proof.
  exact (save_sends_only_changes stored_pk renamed_delta (fun _ => [])
           acknowledging (site_doc [("_id", VInt 7)]) None fresh_world eq_refl).
Defined.

End DocumentExamples.

(* ================================================================== *)
(** * The delta of a hydrated document *)
(* ================================================================== *)

Section DeltaFacts.

Import Delta.

Lemma delta_of_assignment (doc : tracked) (field : string) (v : value) :
  state doc <> NEW ->
  changed doc = [] ->
  delta (assign field v doc)
  = if is_empty (Some v) && has_content (Dict.get field (fields doc))
    then ([], [(field, VInt 1)])
    else ([(field, v)], []).
Proof.
  intros Hstate Hclean.
  assert (Hpaths : delta (assign field v doc)
                   = delta_path (assign field v doc) ([], []) [field]).
  { unfold delta, assign. cbn [state changed]. rewrite Hclean.
    destruct (state doc); [congruence| |]; reflexivity. }
  rewrite Hpaths. unfold delta_path, previously, assign.
  cbn [fields before changed]. rewrite Hclean. cbn [pending existsb held].
  rewrite String.eqb_refl. cbn [at_path]. rewrite get_set_same.
  replace (match Dict.get field (fields doc) with
           | Some v0 => Some v0
           | None => None
           end) with (Dict.get field (fields doc))
    by now destruct (Dict.get field (fields doc)).
  reflexivity.
Qed.

Lemma pending_elsewhere (f field : string) (cs : list path) :
  String.eqb f field = false ->
  pending f (filter (fun q => negb (is_prefix [field] q)) cs) = pending f cs.
Proof.
  intro Hne.
  assert (Hother : forall q, is_prefix [field] q = true ->
            (is_prefix q [f] || is_prefix [f] q)%bool = false).
  { intros q Hq. destruct q as [|a q]; [discriminate|].
    cbn [is_prefix] in Hq |- *. apply andb_true_iff in Hq as [Ha _].
    apply String.eqb_eq in Ha. subst a.
    rewrite (String.eqb_sym field f), Hne. reflexivity. }
  unfold pending. induction cs as [|q cs IH]; [reflexivity|].
  cbn [filter]. destruct (is_prefix [field] q) eqn:Hq; cbn [negb existsb].
  - rewrite (Hother q Hq). exact IH.
  - now rewrite IH.
Qed.

Lemma pending_mark (f field : string) (cs : list path) :
  pending f (mark [field] cs) = (String.eqb f field || pending f cs)%bool.
Proof.
  assert (Hmark : mark [field] cs
                  = if existsb (fun q => is_prefix q [field]) cs then cs
                    else filter (fun q => negb (is_prefix [field] q)) cs
                         ++ [[field]]) by reflexivity.
  rewrite Hmark. clear Hmark.
  destruct (existsb (fun q => is_prefix q [field]) cs) eqn:Hcoarser.
  - destruct (String.eqb f field) eqn:Hf; [|reflexivity].
    apply String.eqb_eq in Hf. subst f. cbn [orb]. unfold pending.
    apply existsb_exists in Hcoarser as [q [Hin Hq]].
    apply existsb_exists. exists q. split; [exact Hin|]. now rewrite Hq.
  - assert (Hsplit : pending f (filter (fun q => negb (is_prefix [field] q)) cs
                                  ++ [[field]])
                     = (pending f (filter (fun q => negb (is_prefix [field] q)) cs)
                        || String.eqb f field)%bool).
    { unfold pending. rewrite existsb_app. f_equal. cbn.
      rewrite (String.eqb_sym field f).
      now destruct (String.eqb f field). }
    rewrite Hsplit. destruct (String.eqb f field) eqn:Hf.
    + now rewrite orb_true_r.
    + rewrite orb_false_r. now apply pending_elsewhere.
Qed.

(** In the lifecycle of section 4.4 a field without a pending change holds
    its persisted value, and what a field with a pending change held
    "previously" is its persisted value: there the delta is a function of
    the ChangeSet, the current values and the persisted state. *)
Lemma before_is_persisted (doc : tracked) :
  in_lifecycle doc ->
  forall f : string,
    if pending f (changed doc)
    then held f (before doc) = Dict.get f (persisted doc)
    else Dict.get f (fields doc) = Dict.get f (persisted doc).
Proof.
  induction 1 as [son | field v doc Hdoc IH | doc Hdoc IH]; intro f.
  - reflexivity.
  - unfold assign. cbn [changed before fields persisted].
    rewrite pending_mark. specialize (IH f).
    destruct (String.eqb f field) eqn:Hf; cbn [orb].
    + apply String.eqb_eq in Hf. subst f.
      destruct (pending field (changed doc)); [exact IH|].
      cbn [held]. now rewrite String.eqb_refl.
    + destruct (pending f (changed doc)) eqn:Hp.
      * destruct (pending field (changed doc)); [exact IH|].
        cbn [held]. now rewrite Hf.
      * rewrite get_set_other; [exact IH | exact Hf].
  - reflexivity.
Qed.

(** C3: a document hydrated from storage and not mutated has the delta
    [({}, {})].  On an existing document without pending changes, one
    assignment of a scalar value to a field gives [({field: value}, {})],
    and one assignment of an empty mapping or array to a field that held
    content gives [({}, {field: 1})], the unset entry being the number [1]
    whatever the field held.  The steps of [test_delta.py] (lines 50-84),
    each after the ChangeSet was emptied by hand, give the deltas the test
    asserts, whatever the stored document. *)
Theorem delta_after_hydration :
  (forall son : dict, delta (hydrate son) = ([], []))
  /\ (forall (doc : tracked) (field : string) (v : value),
         state doc <> NEW -> changed doc = [] ->
         is_scalar v = true ->
         delta (assign field v doc) = ([(field, v)], []))
  /\ (forall (doc : tracked) (field : string) (old e : value),
         state doc <> NEW -> changed doc = [] ->
         Dict.get field (fields doc) = Some old ->
         has_content (Some old) = true ->
         e = VDict [] \/ e = VList [] ->
         delta (assign field e doc) = ([], [(field, VInt 1)]))
  /\ (forall son : dict,
         let dict_value := VDict [("hello", VStr "world"); ("ping", VStr "pong")] in
         let list_value := VList [VStr "1"; VInt 2; VDict [("hello", VStr "world")]] in
         let doc1 := assign "string_field" (VStr "hello") (hydrate son) in
         let doc2 := assign "int_field" (VInt 1) (forget_changes doc1) in
         let doc3 := assign "dict_field" dict_value (forget_changes doc2) in
         let doc4 := assign "list_field" list_value (forget_changes doc3) in
         let doc5 := assign "dict_field" (VDict []) (forget_changes doc4) in
         let doc6 := assign "list_field" (VList []) (forget_changes doc5) in
         delta doc1 = ([("string_field", VStr "hello")], [])
         /\ delta doc2 = ([("int_field", VInt 1)], [])
         /\ delta doc3 = ([("dict_field", dict_value)], [])
         /\ delta doc4 = ([("list_field", list_value)], [])
         /\ delta doc5 = ([], [("dict_field", VInt 1)])
         /\ delta doc6 = ([], [("list_field", VInt 1)])).
Proof.
  split; [reflexivity|]. split; [|split].
  - intros doc field v Hstate Hclean Hs.
    rewrite (delta_of_assignment doc field v Hstate Hclean).
    now destruct v.
  - intros doc field old e Hstate Hclean Hget Hold He.
    rewrite (delta_of_assignment doc field e Hstate Hclean), Hget.
    now destruct He as [-> | ->]; rewrite Hold.
  - intros son dict_value list_value doc1 doc2 doc3 doc4 doc5 doc6.
    repeat split.
    + unfold doc1. now rewrite delta_of_assignment.
    + unfold doc2. now rewrite delta_of_assignment.
    + unfold doc3. now rewrite delta_of_assignment.
    + unfold doc4. now rewrite delta_of_assignment.
    + unfold doc5. rewrite delta_of_assignment by easy.
      unfold doc4, doc3, forget_changes, assign. cbn [fields].
      rewrite get_set_other by reflexivity.
      now rewrite get_set_same.
    + unfold doc6. rewrite delta_of_assignment by easy.
      unfold doc5, doc4, forget_changes, assign. cbn [fields].
      rewrite get_set_other by reflexivity.
      now rewrite get_set_same.
Qed.

Lemma delta_after_hydration_witness :
  delta (assign "string_field" (VStr "hello") (hydrate []))
  = ([("string_field", VStr "hello")], [])
  /\ delta (assign "dict_field" (VDict [])
                   (hydrate [("dict_field", VDict [("hello", VStr "world")])]))
     = ([], [("dict_field", VInt 1)])
  /\ delta (assign "list_field" (VList [])
              (forget_changes
                 (assign "list_field" (VList [VStr "1"; VInt 2]) (hydrate []))))
     = ([], [("list_field", VInt 1)]).
Proof.
  split; [|split].
  - apply (proj1 (proj2 delta_after_hydration) (hydrate []) "string_field"
             (VStr "hello")); [discriminate | reflexivity | reflexivity].
  - apply (proj1 (proj2 (proj2 delta_after_hydration))
             (hydrate [("dict_field", VDict [("hello", VStr "world")])])
             "dict_field" (VDict [("hello", VStr "world")]) (VDict []));
      [discriminate | reflexivity | reflexivity | reflexivity
      | left; reflexivity].
  - apply (proj1 (proj2 (proj2 delta_after_hydration))
             (forget_changes
                (assign "list_field" (VList [VStr "1"; VInt 2]) (hydrate [])))
             "list_field" (VList [VStr "1"; VInt 2]) (VList []));
      [discriminate | reflexivity | reflexivity | reflexivity
      | right; reflexivity].
Defined.

End DeltaFacts.

(* ================================================================== *)
(** * The testable properties of the compilers, evaluated *)
(* ================================================================== *)

Section CompilerExamples.

Example update_set (v : value) :
  update None [("set__x", v)] = Ok [("$set", VDict [("x", v)])].
Proof. reflexivity. Qed.

Example update_unset :
  update None [("unset__x", VInt 1)] = Ok [("$unset", VDict [("x", VInt 1)])].
Proof. reflexivity. Qed.

Example update_pull_all_flat :
  update None [("pull_all__tags", VList [VStr "a"; VStr "b"])]
  = Ok [("$pullAll", VDict [("tags", VList [VStr "a"; VStr "b"])])].
Proof. reflexivity. Qed.

Example update_pull_all_nested :
  update None [("pull_all__a__b", VList [VInt 1])] = Raise InvalidQueryError.
Proof. reflexivity. Qed.

Example update_pull_nested :
  update None [("pull__comments__vote__lt", VInt 1)]
  = Ok [("$pull",
         VDict [("comments", VDict [("vote", VDict [("$lt", VInt 1)])])])].
Proof. reflexivity. Qed.

Example update_without_operator :
  update None [("x", VInt 1)] = Raise InvalidQueryError.
Proof. reflexivity. Qed.

Example update_same_bucket :
  update None [("set__x", VInt 1); ("set__y", VInt 2)]
  = Ok [("$set", VDict [("x", VInt 1); ("y", VInt 2)])].
Proof. reflexivity. Qed.

Example query_age : query None [("age", VInt 1)] = Ok [("age", VInt 1)].
Proof. reflexivity. Qed.

(** One key in collision: the deferred operator fragment comes first, the
    bare-equality value is appended after it. *)
Example query_ref_in (A B : value) :
  is_dict A = false ->
  query None [("ref", A); ("ref__in", VList [A; B])]
  = Ok [("$and", VList [VDict [("ref", VDict [("$in", VList [A; B])])];
                        VDict [("ref", A)]])].
Proof. intros H. destruct A; try discriminate; reflexivity. Qed.

(** A key with no segment left once the numeric ones are set aside. *)
Example query_digit_only : query None [("5", VInt 1)] = Raise IndexError.
Proof. reflexivity. Qed.

(** A geo operator without a document class finds no [field]. *)
Example query_geo_without_cls :
  query None [("loc__near", VList [VInt 1; VInt 2])] = Raise UnboundLocalError.
Proof. reflexivity. Qed.

Example infer_polygon :
  _infer_geometry (VList [VList [VList [VInt 0; VInt 0]; VList [VInt 1; VInt 1]]])
  = Ok (geometry "Polygon"
          (VList [VList [VList [VInt 0; VInt 0]; VList [VInt 1; VInt 1]]])).
Proof. reflexivity. Qed.

Example infer_point :
  _infer_geometry (VList [VInt 1; VInt 2])
  = Ok (geometry "Point" (VList [VInt 1; VInt 2])).
Proof. reflexivity. Qed.

Example infer_empty_list : _infer_geometry (VList []) = Raise InvalidQueryError.
Proof. reflexivity. Qed.

Example infer_tuple :
  _infer_geometry (VTuple [VInt 1; VInt 2]) = Raise InvalidQueryError.
Proof. reflexivity. Qed.

(** [None > 0] is false in Python 2: [dec] hands [None] on to [$inc]. *)
Example dec_of_none :
  update None [("dec__hits", VNone)] = Ok [("$inc", VDict [("hits", VNone)])].
Proof. reflexivity. Qed.

Example dec_of_string :
  update None [("dec__hits", VStr "1")] = Raise TypeError.
Proof. reflexivity. Qed.

(** [dict.update] with an empty string has no pair to store: the second
    pair leaves the operator document as it was. *)
Example merge_of_empty_string :
  query None [("name__gte", VStr "a"); ("name__startswith", VStr "")]
  = Ok [("name", VDict [("$gte", VStr "a")])].
Proof. reflexivity. Qed.

(** A string of one character is an element of length one, not a pair. *)
Example merge_of_string :
  query None [("name__gte", VStr "a"); ("name__startswith", VStr "b")]
  = Raise ValueError.
Proof. reflexivity. Qed.

Example merge_of_number :
  query None [("name__gte", VStr "a"); ("name__startswith", VInt 1)]
  = Raise TypeError.
Proof. reflexivity. Qed.

End CompilerExamples.

(* ================================================================== *)
(** * Keys and their segments *)
(* ================================================================== *)

Section KeySegments.

Lemma str_app_nil_r (s : string) : (s ++ "")%string = s.
Proof. induction s as [|c s IH]; simpl; [reflexivity | now rewrite IH]. Qed.

Lemma str_app_assoc (a b c : string) :
  ((a ++ b) ++ c)%string = (a ++ (b ++ c))%string.
Proof. induction a as [|x a IH]; simpl; [reflexivity | now rewrite IH]. Qed.

(** Scanning a splittable segment never cuts. *)
Lemma split_from_segment (s : string) :
  forall acc rest : string,
    splittable s = true ->
    Str.split_from acc (s ++ rest) = Str.split_from (acc ++ s) rest.
Proof.
  induction s as [|c s IH]; intros acc rest Hs.
  - now rewrite str_app_nil_r.
  - assert (Hstep : splittable s = true
                    /\ Str.split_from acc (String c s ++ rest)
                       = Str.split_from (acc ++ String c EmptyString) (s ++ rest)).
    { simpl in Hs. simpl.
      destruct (Ascii.eqb c "_") eqn:Ec.
      - destruct s as [|c' s']; [discriminate|].
        apply andb_true_iff in Hs. destruct Hs as [Hc' Hs'].
        split; [exact Hs'|]. simpl.
        apply negb_true_iff in Hc'. rewrite Hc'. reflexivity.
      - split; [exact Hs|].
        destruct s as [|c' s']; simpl.
        + destruct rest as [|r rest']; reflexivity.
        + reflexivity. }
    destruct Hstep as [Hs' ->]. rewrite IH by assumption.
    now rewrite str_app_assoc.
Qed.

Lemma split_from_join (segs : list string) :
  forall (acc seg : string),
    Forall (fun s => splittable s = true) (seg :: segs) ->
    Str.split_from acc (String.concat "__" (seg :: segs))
    = (acc ++ seg)%string :: segs.
Proof.
  induction segs as [|seg' segs IH]; intros acc seg Hall.
  - simpl. inversion Hall; subst.
    rewrite <- (str_app_nil_r seg) at 1.
    rewrite split_from_segment by assumption. reflexivity.
  - inversion Hall as [|? ? Hseg Hrest]; subst.
    change (String.concat "__" (seg :: seg' :: segs))
      with (seg ++ "__" ++ String.concat "__" (seg' :: segs))%string.
    rewrite split_from_segment by assumption.
    change (Str.split_from (acc ++ seg)
              ("__" ++ String.concat "__" (seg' :: segs)))
      with ((acc ++ seg)%string
            :: Str.split_from "" (String.concat "__" (seg' :: segs))).
    now rewrite IH.
Qed.

(** X25: splitting undoes joining: a key written as segments joined by
    [__] splits back into those segments, provided no segment has two
    underscores in a row or ends with one (single underscores, as in
    [pull_all] or [max_distance], are fine). *)
Theorem split_of_joined_segments (segs : list string) :
  segs <> [] ->
  Forall (fun s => splittable s = true) segs ->
  Str.split (String.concat "__" segs) = segs.
Proof.
  intros Hne Hall. destruct segs as [|seg segs]; [contradiction|].
  unfold Str.split. now rewrite split_from_join.
Qed.

Lemma split_of_joined_segments_witness :
  Str.split (String.concat "__" ["pull_all"; "blog_posts"; "0"; "tags"])
  = ["pull_all"; "blog_posts"; "0"; "tags"].
Proof.
  apply split_of_joined_segments.
  - discriminate.
  - repeat constructor.
Defined.

(** A segment ending with an underscore does not survive. *)
Example split_trailing_underscore :
  Str.split (String.concat "__" ["a_"; "b"]) = ["a"; "_b"].
Proof. reflexivity. Qed.

Lemma getitem_last_app {A : Type} (l : list A) (x : A) :
  getitem_last (l ++ [x]) = Ok x.
Proof. unfold getitem_last. now rewrite rev_app_distr. Qed.

Lemma without_digits_app (a b : list string) :
  without_digits (a ++ b) = without_digits a ++ without_digits b.
Proof. apply filter_app. Qed.

Lemma mem_in (x : string) (l : list string) : In x l -> Str.mem x l = true.
Proof.
  intros H. unfold Str.mem. apply existsb_exists.
  exists x. split; [assumption | apply String.eqb_refl].
Qed.

Lemma mem_not_in (x : string) (l : list string) :
  Str.mem x l = false -> ~ In x l.
Proof. intros H Hin. apply mem_in in Hin. congruence. Qed.

Lemma operators_not_numeric (o : string) :
  In o MATCH_OPERATORS -> Str.isdigit o = false.
Proof.
  intros H. unfold MATCH_OPERATORS, COMPARISON_OPERATORS, GEO_OPERATORS,
    STRING_OPERATORS, CUSTOM_OPERATORS in H. simpl in H.
  repeat (destruct H as [<-|H]; [reflexivity|]). contradiction.
Qed.

(** Tokens that are not numeric leave no trace once the names are used up. *)
Lemma in_place_tokens (tokens : list string) :
  Forall (fun t => Str.isdigit t = false) tokens ->
  in_place tokens [] = [].
Proof.
  induction 1 as [|t tokens Ht _ IH]; simpl; [reflexivity|].
  now rewrite Ht.
Qed.

(** Setting the numeric segments aside and putting them back gives the path
    back, whatever non-numeric tokens were popped behind it. *)
Lemma in_place_round_trip (path tokens : list string) :
  Forall (fun t => Str.isdigit t = false) tokens ->
  in_place (path ++ tokens) (without_digits path) = path.
Proof.
  intros Htok. induction path as [|seg path IH]; simpl.
  - now apply in_place_tokens.
  - unfold without_digits in *. simpl.
    destruct (Str.isdigit seg); simpl; now rewrite IH.
Qed.

End KeySegments.

(* ================================================================== *)
(** * Filters on one path, without a document class *)
(* ================================================================== *)

Section SchemalessFilters.

Lemma without_digits_token (t : string) :
  Str.isdigit t = false -> without_digits [t] = [t].
Proof. intros H. unfold without_digits. simpl. now rewrite H. Qed.

Lemma in_match_operators (op : string) :
  In op COMPARISON_OPERATORS \/ In op GEO_OPERATORS
  \/ In op STRING_OPERATORS \/ In op CUSTOM_OPERATORS ->
  In op MATCH_OPERATORS.
Proof.
  unfold MATCH_OPERATORS. rewrite !in_app_iff. tauto.
Qed.

Lemma query_split_bare (key last : string) :
  getitem_last (without_digits (Str.split key)) = Ok last ->
  Str.mem last MATCH_OPERATORS = false ->
  query_split key
  = Ok (digit_indices (Str.split key), without_digits (Str.split key),
        None, false).
Proof.
  intros Hlast Hmem. unfold query_split. rewrite Hlast. cbn [bind].
  rewrite Hmem, Hlast. cbn [bind].
  destruct (String.eqb last "not") eqn:E; [|reflexivity].
  apply String.eqb_eq in E. subst last. discriminate.
Qed.

Lemma query_split_operator (key : string) (path : list string)
    (op last : string) :
  Str.split key = path ++ [op] ->
  In op MATCH_OPERATORS ->
  getitem_last (without_digits path) = Ok last ->
  last <> "not" ->
  query_split key
  = Ok (digit_indices (path ++ [op]), without_digits path, Some op, false).
Proof.
  intros Hsplit Hop Hlast Hnot. unfold query_split. rewrite Hsplit.
  rewrite without_digits_app,
    (without_digits_token op (operators_not_numeric op Hop)).
  rewrite getitem_last_app. cbn [bind].
  rewrite (mem_in _ _ Hop), removelast_last, Hlast. cbn [bind].
  apply String.eqb_neq in Hnot. now rewrite Hnot.
Qed.

Lemma query_split_negated (key : string) (path : list string) (op : string) :
  Str.split key = path ++ ["not"; op] ->
  In op MATCH_OPERATORS ->
  query_split key
  = Ok (digit_indices (path ++ ["not"; op]), without_digits path, Some op, true).
Proof.
  intros Hsplit Hop. unfold query_split. rewrite Hsplit.
  change (path ++ ["not"; op]) with (path ++ ["not"] ++ [op]).
  rewrite !without_digits_app,
    (without_digits_token op (operators_not_numeric op Hop)),
    (without_digits_token "not" eq_refl).
  rewrite app_assoc, getitem_last_app. cbn [bind].
  rewrite (mem_in _ _ Hop), removelast_last, getitem_last_app. cbn [bind].
  now rewrite removelast_last.
Qed.

(** One keyword pair whose resolution succeeds is stored under its key. *)
Lemma query_single (cls : option doc_cls) (key : string) (v : value)
    (op : option string) (skey : string) (val : value) :
  key <> "__raw__" ->
  query_resolve cls key v = Ok (op, skey, val) ->
  query cls [(key, v)] = Ok [(skey, val)].
Proof.
  intros Hraw Hres. apply String.eqb_neq in Hraw.
  unfold query. simpl sorted_items. cbn [foldM].
  rewrite (query_pair_resolved _ _ _ _ _ _ _ _ Hraw Hres).
  unfold query_store. now destruct op.
Qed.

Lemma query_single_raises (cls : option doc_cls) (key : string) (v : value)
    (e : exn) :
  key <> "__raw__" ->
  query_resolve cls key v = Raise e ->
  query cls [(key, v)] = Raise e.
Proof.
  intros Hraw Hres. apply String.eqb_neq in Hraw.
  unfold query. simpl sorted_items. cbn [foldM].
  unfold query_pair. now rewrite Hraw, Hres.
Qed.

Lemma comparison_is_wrapped (op : string) (v : value) :
  In op COMPARISON_OPERATORS ->
  query_operator None (Some op) v = Ok (wrap ("$" ++ op) v).
Proof.
  unfold COMPARISON_OPERATORS. simpl.
  intros H. repeat (destruct H as [<-|H]; [reflexivity|]). contradiction.
Qed.

Lemma string_operator_is_identity (op : string) (v : value) :
  In op STRING_OPERATORS -> query_operator None (Some op) v = Ok v.
Proof.
  unfold STRING_OPERATORS. simpl.
  intros H. repeat (destruct H as [<-|H]; [reflexivity|]). contradiction.
Qed.

Lemma geo_operator_needs_field (op : string) (v : value) :
  In op GEO_OPERATORS -> query_operator None (Some op) v = Raise UnboundLocalError.
Proof.
  unfold GEO_OPERATORS. simpl.
  intros H. repeat (destruct H as [<-|H]; [reflexivity|]). contradiction.
Qed.

Lemma digits_are_not_tokens (ts : list string) :
  Forall (fun t => In t MATCH_OPERATORS) ts ->
  Forall (fun t => Str.isdigit t = false) ts.
Proof.
  intros H. eapply Forall_impl; [|exact H].
  intros t. apply operators_not_numeric.
Qed.

(** The storage key of a path followed by an operator. *)
Lemma query_resolve_operator (key : string) (path : list string)
    (op last : string) (v : value) :
  Str.split key = path ++ [op] ->
  In op MATCH_OPERATORS ->
  getitem_last (without_digits path) = Ok last ->
  last <> "not" ->
  query_resolve None key v
  = bind (query_operator None (Some op) v)
         (fun val => Ok (Some op, Str.join "." path, val)).
Proof.
  intros Hsplit Hop Hlast Hnot. unfold query_resolve.
  rewrite (query_split_operator _ _ _ _ Hsplit Hop Hlast Hnot). cbn [bind].
  rewrite reinsert_in_place, in_place_round_trip
    by (repeat constructor; now apply operators_not_numeric).
  now destruct (query_operator None (Some op) v).
Qed.

Lemma query_resolve_negated (key : string) (path : list string)
    (op : string) (v : value) :
  Str.split key = path ++ ["not"; op] ->
  In op MATCH_OPERATORS ->
  query_resolve None key v
  = bind (query_operator None (Some op) v)
         (fun val => Ok (Some op, Str.join "." path, wrap "$not" val)).
Proof.
  intros Hsplit Hop. unfold query_resolve.
  rewrite (query_split_negated _ _ _ Hsplit Hop). cbn [bind].
  rewrite reinsert_in_place, in_place_round_trip
    by (repeat constructor; now apply operators_not_numeric).
  now destruct (query_operator None (Some op) v).
Qed.

End SchemalessFilters.

Section SchemalessFilterResults.

(** X1: without a document class and without an operator, a keyword
    compiles to bare equality on the dotted path: the segments of the key,
    numeric ones included and in their places, joined by dots. *)
Theorem query_bare_path (key last : string) (v : value) :
  key <> "__raw__" ->
  getitem_last (without_digits (Str.split key)) = Ok last ->
  Str.mem last MATCH_OPERATORS = false ->
  query None [(key, v)] = Ok [(Str.join "." (Str.split key), v)].
Proof.
  intros Hraw Hlast Hmem.
  apply (query_single None key v None); [assumption|].
  unfold query_resolve.
  rewrite (query_split_bare _ _ Hlast Hmem). cbn [bind query_operator].
  rewrite reinsert_in_place.
  rewrite <- (app_nil_r (Str.split key)) at 1.
  now rewrite in_place_round_trip by constructor.
Qed.

Lemma query_bare_path_witness :
  query None [("posts__1__comments__0__name", VStr "x")]
  = Ok [("posts.1.comments.0.name", VStr "x")].
Proof.
  apply (query_bare_path "posts__1__comments__0__name" "name" (VStr "x"));
    [discriminate | reflexivity | reflexivity].
Defined.

(** X2: without a document class, a path followed by a comparison operator
    compiles to the dotted path mapped to [{"$" + op: value}], and followed
    by [match] to [{"$elemMatch": value}]; the last name of the path must
    not be the negation marker. *)
Theorem query_comparison_path (key : string) (path : list string)
    (op last : string) (v : value) :
  key <> "__raw__" ->
  Str.split key = path ++ [op] ->
  getitem_last (without_digits path) = Ok last ->
  last <> "not" ->
  (In op COMPARISON_OPERATORS ->
     query None [(key, v)]
     = Ok [(Str.join "." path, VDict [(("$" ++ op)%string, v)])])
  /\ (op = "match" ->
        query None [(key, v)]
        = Ok [(Str.join "." path, VDict [("$elemMatch", v)])]).
Proof.
  intros Hraw Hsplit Hlast Hnot. split.
  - intros Hop. apply (query_single None key v (Some op)); [assumption|].
    rewrite (query_resolve_operator _ _ _ _ _ Hsplit
               (in_match_operators _ (or_introl Hop)) Hlast Hnot).
    now rewrite comparison_is_wrapped.
  - intros ->. apply (query_single None key v (Some "match")); [assumption|].
    assert (Hin : In "match" MATCH_OPERATORS).
    { apply in_match_operators. right. right. right. now left. }
    now rewrite (query_resolve_operator _ _ _ _ _ Hsplit Hin Hlast Hnot).
Qed.

Lemma query_comparison_path_witness :
  query None [("comments__2__votes__gte", VInt 3)]
  = Ok [("comments.2.votes", VDict [("$gte", VInt 3)])].
Proof.
  refine (proj1 (query_comparison_path "comments__2__votes__gte"
                   ["comments"; "2"; "votes"] "gte" "votes" (VInt 3)
                   _ eq_refl eq_refl _) _).
  - discriminate.
  - discriminate.
  - simpl. tauto.
Defined.

(** X3: a negation marker before the operator wraps the compiled operator
    document in [$not]: [path__not__op=value] compiles to
    [{path: {"$not": {"$" + op: value}}}] for every comparison operator. *)
Theorem query_negated_path (key : string) (path : list string) (op : string)
    (v : value) :
  key <> "__raw__" ->
  Str.split key = path ++ ["not"; op] ->
  In op COMPARISON_OPERATORS ->
  query None [(key, v)]
  = Ok [(Str.join "." path,
         VDict [("$not", VDict [(("$" ++ op)%string, v)])])].
Proof.
  intros Hraw Hsplit Hop.
  apply (query_single None key v (Some op)); [assumption|].
  rewrite (query_resolve_negated _ _ _ _ Hsplit
             (in_match_operators _ (or_introl Hop))).
  now rewrite comparison_is_wrapped.
Qed.

Lemma query_negated_path_witness :
  query None [("age__not__gt", VInt 18)]
  = Ok [("age", VDict [("$not", VDict [("$gt", VInt 18)])])].
Proof.
  apply (query_negated_path "age__not__gt" ["age"] "gt" (VInt 18));
    [discriminate | reflexivity | simpl; tauto].
Defined.

(** X4: without a document class a string operator ([contains],
    [startswith], [iexact], ...) is dropped: the keyword compiles to bare
    equality between the path and the value as passed. *)
Theorem query_string_operator_without_class (key : string)
    (path : list string) (op last : string) (v : value) :
  key <> "__raw__" ->
  Str.split key = path ++ [op] ->
  getitem_last (without_digits path) = Ok last ->
  last <> "not" ->
  In op STRING_OPERATORS ->
  query None [(key, v)] = Ok [(Str.join "." path, v)].
Proof.
  intros Hraw Hsplit Hlast Hnot Hop.
  apply (query_single None key v (Some op)); [assumption|].
  assert (Hin : In op MATCH_OPERATORS) by (apply in_match_operators; tauto).
  rewrite (query_resolve_operator _ _ _ _ _ Hsplit Hin Hlast Hnot).
  now rewrite string_operator_is_identity.
Qed.

Lemma query_string_operator_without_class_witness :
  query None [("name__istartswith", VStr "jo")] = Ok [("name", VStr "jo")].
Proof.
  apply (query_string_operator_without_class "name__istartswith" ["name"]
           "istartswith" "name" (VStr "jo"));
    [discriminate | reflexivity | reflexivity | discriminate | simpl; tauto].
Defined.

(** X5: without a document class every geo operator fails: [field] is not
    bound when [_geo_operator] is called, so the keyword raises
    UnboundLocalError instead of compiling. *)
Theorem query_geo_operator_without_class (key : string) (path : list string)
    (op last : string) (v : value) :
  key <> "__raw__" ->
  Str.split key = path ++ [op] ->
  getitem_last (without_digits path) = Ok last ->
  last <> "not" ->
  In op GEO_OPERATORS ->
  query None [(key, v)] = Raise UnboundLocalError.
Proof.
  intros Hraw Hsplit Hlast Hnot Hop.
  apply query_single_raises; [assumption|].
  assert (Hin : In op MATCH_OPERATORS) by (apply in_match_operators; tauto).
  rewrite (query_resolve_operator _ _ _ _ _ Hsplit Hin Hlast Hnot).
  now rewrite geo_operator_needs_field.
Qed.

Lemma query_geo_operator_without_class_witness :
  query None [("location__within_distance", VList [VInt 1; VInt 2])]
  = Raise UnboundLocalError.
Proof.
  apply (query_geo_operator_without_class "location__within_distance"
           ["location"] "within_distance" "location" (VList [VInt 1; VInt 2]));
    [discriminate | reflexivity | reflexivity | discriminate | simpl; tauto].
Defined.

End SchemalessFilterResults.

(* ================================================================== *)
(** * The order of keyword arguments *)
(* ================================================================== *)

Section KeywordOrder.

Lemma ascii_compare_eq (a b : ascii) : Ascii.compare a b = Eq -> a = b.
Proof. apply Ascii.compare_eq_iff. Qed.

Lemma ascii_compare_lt_trans (a b c : ascii) :
  Ascii.compare a b = Lt -> Ascii.compare b c = Lt -> Ascii.compare a c = Lt.
Proof.
  unfold Ascii.compare. rewrite !N.compare_lt_iff. apply N.lt_trans.
Qed.

Lemma compare_lt_trans (a : string) :
  forall b c : string,
    String.compare a b = Lt -> String.compare b c = Lt ->
    String.compare a c = Lt.
Proof.
  induction a as [|x a IH]; intros [|y b] [|z c]; simpl; try discriminate;
    try reflexivity.
  destruct (Ascii.compare x y) eqn:Exy; try discriminate;
    destruct (Ascii.compare y z) eqn:Eyz; try discriminate; intros H1 H2.
  - apply ascii_compare_eq in Exy, Eyz. subst.
    assert (Hzz : Ascii.compare z z = Eq)
      by (unfold Ascii.compare; apply N.compare_refl).
    rewrite Hzz. now apply (IH b c).
  - apply ascii_compare_eq in Exy. subst. now rewrite Eyz.
  - apply ascii_compare_eq in Eyz. subst. now rewrite Exy.
  - now rewrite (ascii_compare_lt_trans _ _ _ Exy Eyz).
Qed.

Lemma leb_cases (a b : string) :
  String.leb a b = true -> a = b \/ String.compare a b = Lt.
Proof.
  unfold String.leb. destruct (String.compare a b) eqn:E; try discriminate.
  - left. now apply String.compare_eq_iff.
  - now right.
Qed.

Lemma leb_of_lt (a b : string) : String.compare a b = Lt -> String.leb a b = true.
Proof. unfold String.leb. now intros ->. Qed.

Lemma leb_refl (a : string) : String.leb a a = true.
Proof. destruct (String.leb_total a a); assumption. Qed.

Lemma leb_trans (a b c : string) :
  String.leb a b = true -> String.leb b c = true -> String.leb a c = true.
Proof.
  intros Hab Hbc.
  destruct (leb_cases _ _ Hab) as [->|Hlt1]; [assumption|].
  destruct (leb_cases _ _ Hbc) as [<-|Hlt2]; [assumption|].
  apply leb_of_lt. now apply (compare_lt_trans a b c).
Qed.

Lemma insert_sorted_perm (kv : string * value) (l : list (string * value)) :
  Permutation (kv :: l) (insert_sorted kv l).
Proof.
  induction l as [|x l IH]; simpl; [reflexivity|].
  destruct (String.leb (fst kv) (fst x)); [reflexivity|].
  rewrite perm_swap. now apply perm_skip.
Qed.

Lemma sorted_items_perm (kwargs : list (string * value)) :
  Permutation kwargs (sorted_items kwargs).
Proof.
  induction kwargs as [|kv l IH]; simpl; [reflexivity|].
  rewrite <- insert_sorted_perm. now apply perm_skip.
Qed.

Lemma insert_sorted_sorted (kv : string * value) (l : list (string * value)) :
  StronglySorted key_le l -> StronglySorted key_le (insert_sorted kv l).
Proof.
  induction 1 as [|x l Hs IH Hall]; simpl.
  - repeat constructor.
  - destruct (String.leb (fst kv) (fst x)) eqn:E.
    + constructor; [now constructor|].
      constructor; [exact E|].
      eapply Forall_impl; [|exact Hall].
      intros y Hy. unfold key_le in *. now apply (leb_trans _ (fst x)).
    + constructor; [assumption|].
      assert (Hx : key_le x kv).
      { unfold key_le. destruct (String.leb_total (fst kv) (fst x)); congruence. }
      eapply Permutation_Forall; [apply insert_sorted_perm|].
      now constructor.
Qed.

Lemma sorted_items_sorted (kwargs : list (string * value)) :
  StronglySorted key_le (sorted_items kwargs).
Proof.
  induction kwargs as [|kv l IH]; simpl; [constructor|].
  now apply insert_sorted_sorted.
Qed.

Lemma same_key_same_pair (l : list (string * value)) (a b : string * value) :
  NoDup (map fst l) -> In a l -> In b l -> fst a = fst b -> a = b.
Proof.
  induction l as [|x l IH]; simpl; [tauto|].
  intros Hnd Ha Hb Hk. inversion Hnd as [|? ? Hnotin Hnd']; subst.
  destruct Ha as [->|Ha], Hb as [->|Hb]; try reflexivity.
  - exfalso. apply Hnotin. rewrite Hk. now apply in_map.
  - exfalso. apply Hnotin. rewrite <- Hk. now apply in_map.
  - now apply IH.
Qed.

(** Two sorted lists of the same pairs, with distinct keys, are equal. *)
Lemma sorted_unique (l1 : list (string * value)) :
  forall l2 : list (string * value),
    NoDup (map fst l1) ->
    StronglySorted key_le l1 -> StronglySorted key_le l2 ->
    Permutation l1 l2 -> l1 = l2.
Proof.
  induction l1 as [|a l1 IH]; intros l2 Hnd Hs1 Hs2 Hp.
  - apply Permutation_nil in Hp. now subst.
  - destruct l2 as [|b l2].
    { apply Permutation_sym, Permutation_nil in Hp. discriminate. }
    inversion Hs1 as [|? ? Hs1' Hall1]; subst.
    inversion Hs2 as [|? ? Hs2' Hall2]; subst.
    assert (Hab : a = b).
    { assert (Hina : In a (b :: l2))
        by (eapply Permutation_in; [exact Hp | now left]).
      assert (Hinb : In b (a :: l1))
        by (eapply Permutation_in; [apply Permutation_sym; exact Hp | now left]).
      apply (same_key_same_pair (a :: l1)); [assumption | now left | assumption |].
      apply String.leb_antisym.
      - destruct Hinb as [->|Hinb]; [apply leb_refl|].
        rewrite Forall_forall in Hall1. now apply Hall1.
      - destruct Hina as [->|Hina]; [apply leb_refl|].
        rewrite Forall_forall in Hall2. now apply Hall2. }
    subst b. f_equal.
    apply IH; try assumption.
    + now inversion Hnd.
    + now apply Permutation_cons_inv in Hp.
Qed.

(** X6: the compiled query does not depend on the order in which the
    keyword arguments are passed: keywords with distinct keys, given in any
    two orders, compile to the same result (the same document or the same
    exception), with or without a document class. *)
Theorem query_order_independent (cls : option doc_cls)
    (kwargs kwargs' : list (string * value)) :
  NoDup (map fst kwargs) ->
  Permutation kwargs kwargs' ->
  query cls kwargs = query cls kwargs'.
Proof.
  intros Hnd Hp. unfold query.
  replace (sorted_items kwargs') with (sorted_items kwargs); [reflexivity|].
  apply sorted_unique.
  - eapply Permutation_NoDup; [|exact Hnd].
    apply Permutation_map, sorted_items_perm.
  - apply sorted_items_sorted.
  - apply sorted_items_sorted.
  - rewrite <- (sorted_items_perm kwargs), <- (sorted_items_perm kwargs').
    exact Hp.
Qed.

Lemma query_order_independent_witness :
  query None [("age__lt", VInt 10); ("name", VStr "x"); ("age__gt", VInt 1)]
  = query None [("name", VStr "x"); ("age__gt", VInt 1); ("age__lt", VInt 10)].
Proof.
  apply query_order_independent.
  - repeat constructor; simpl; intuition discriminate.
  - exact (Permutation_cons_append
             [("name", VStr "x"); ("age__gt", VInt 1)] ("age__lt", VInt 10)).
Defined.

End KeywordOrder.

(* ================================================================== *)
(** * Malformed keys, raw documents, geo operators *)
(* ================================================================== *)

Section EdgesOfQuery.

(** X7: a filter key with no name in it - only numeric segments, or only an
    operator besides them, as in [5], [gt] or [1__gt] - makes [query] fail
    with IndexError (the [parts[-1]] of lines 45 and 49 on an empty list),
    with or without a document class. *)
Theorem query_key_without_name (cls : option doc_cls) (key : string)
    (v : value) :
  key <> "__raw__" ->
  without_digits (Str.split key) = []
  \/ (exists o, without_digits (Str.split key) = [o] /\ In o MATCH_OPERATORS) ->
  query cls [(key, v)] = Raise IndexError.
Proof.
  intros Hraw Hkey. apply query_single_raises; [assumption|].
  assert (Hsplit : query_split key = Raise IndexError).
  { unfold query_split. destruct Hkey as [-> | [o [-> Ho]]]; [reflexivity|].
    change (getitem_last [o]) with (Ok (A := string) o). cbn [bind].
    now rewrite (mem_in _ _ Ho). }
  unfold query_resolve. now rewrite Hsplit.
Qed.

Lemma query_key_without_name_witness :
  query None [("1__gt", VInt 3)] = Raise IndexError.
Proof.
  apply query_key_without_name; [discriminate|].
  right. exists "gt". split; [reflexivity|].
  apply in_match_operators. left. simpl. tauto.
Defined.

Lemma update_onto (d : dict) :
  forall acc : dict,
    NoDup (Dict.keys (acc ++ d)) -> Dict.update acc d = acc ++ d.
Proof.
  unfold Dict.update.
  induction d as [|[k v] d IH]; intros acc Hnd; simpl.
  - now rewrite app_nil_r.
  - rewrite set_absent.
    + rewrite IH; rewrite <- app_assoc; [reflexivity | exact Hnd].
    + apply get_not_in_keys. unfold Dict.keys in *.
      rewrite map_app in Hnd. simpl in Hnd.
      apply NoDup_remove_2 in Hnd. intros Hin. apply Hnd.
      apply in_or_app. now left.
Qed.

(** X8: a raw document given alone is the result: [query(__raw__=d)] and
    [update(__raw__=d)] return a document with the content of [d] as a
    mapping, the same keys with the same values, whatever the document
    class.  (The result is a plain dictionary: the order of its keys is not
    that of [d].) *)
Theorem raw_passes_through (cls : option doc_cls) (d : dict) :
  NoDup (Dict.keys d) ->
  (exists r, query cls [("__raw__", VDict d)] = Ok r /\ same_mapping r d)
  /\ (exists r, update cls [("__raw__", VDict d)] = Ok r /\ same_mapping r d).
Proof.
  intros Hnd.
  assert (H : Dict.update [] d = d) by now apply (update_onto d []).
  split; exists d; (split; [|intro k; reflexivity]).
  - unfold query. simpl sorted_items. cbn [foldM query_pair].
    rewrite String.eqb_refl. cbn [dict_update_value bind]. now rewrite H.
  - unfold update. cbn [foldM update_pair].
    rewrite String.eqb_refl. cbn [dict_update_value bind]. now rewrite H.
Qed.

Lemma raw_passes_through_witness :
  (exists r,
      query None [("__raw__", VDict [("age", VDict [("$gt", VInt 1)]); ("n", VInt 2)])]
      = Ok r
      /\ same_mapping r [("age", VDict [("$gt", VInt 1)]); ("n", VInt 2)])
  /\ (exists r,
         update None [("__raw__", VDict [("age", VDict [("$gt", VInt 1)]); ("n", VInt 2)])]
         = Ok r
         /\ same_mapping r [("age", VDict [("$gt", VInt 1)]); ("n", VInt 2)]).
Proof.
  apply raw_passes_through. repeat constructor; simpl; intuition discriminate.
Defined.

(** X9: geometry inference is idempotent: what [_infer_geometry] returns is
    accepted by it unchanged. *)
Theorem infer_geometry_idempotent (v g : value) :
  _infer_geometry v = Ok g -> _infer_geometry g = Ok g.
Proof.
  assert (Hseq : forall w : value,
             (if succeeds (index3 w) then Ok (geometry "Polygon" w)
              else if succeeds (index2 w) then Ok (geometry "LineString" w)
              else if succeeds (index1 w) then Ok (geometry "Point" w)
              else Raise InvalidQueryError) = Ok g ->
             _infer_geometry g = Ok g).
  { intros w.
    destruct (succeeds (index3 w)); [|destruct (succeeds (index2 w));
      [|destruct (succeeds (index1 w))]];
      intros H; try discriminate; injection H as <-; reflexivity. }
  destruct v; try (intros H; discriminate H).
  - apply Hseq.
  - unfold _infer_geometry at 1.
    destruct (Dict.has "$geometry" d) eqn:Hg.
    + intros H. injection H as <-. unfold _infer_geometry. now rewrite Hg.
    + destruct (Dict.has "coordinates" d && Dict.has "type" d);
        intros H; [|discriminate]. injection H as <-. reflexivity.
Qed.

Lemma infer_geometry_idempotent_witness :
  _infer_geometry (geometry "Point" (VList [VInt 1; VInt 2]))
  = Ok (geometry "Point" (VList [VInt 1; VInt 2])).
Proof.
  exact (infer_geometry_idempotent (VList [VInt 1; VInt 2])
           (geometry "Point" (VList [VInt 1; VInt 2])) eq_refl).
Defined.




End EdgesOfQuery.

(* ================================================================== *)
(** * Updates on one path, without a document class *)
(* ================================================================== *)

Section SchemalessUpdates.

Lemma update_operator_canonical (op : string) (path : list string) (v : value) :
  In op UPDATE_OPERATORS -> op <> "dec" ->
  update_operator (op :: path) v = Ok (Some (canonical op), path, v).
Proof.
  unfold UPDATE_OPERATORS. simpl. intros H Hdec.
  repeat (destruct H as [<-|H]; [try reflexivity; now destruct Hdec|]).
  contradiction.
Qed.

Lemma update_match_none (path : list string) (last : string) :
  getitem_last path = Ok last ->
  Str.mem last COMPARISON_OPERATORS = false ->
  update_match path = Ok (None, path).
Proof. intros Hl Hm. unfold update_match. rewrite Hl. cbn [bind]. now rewrite Hm. Qed.

Lemma update_match_some (path : list string) (m : string) :
  In m COMPARISON_OPERATORS ->
  update_match (path ++ [m]) = Ok (Some m, path).
Proof.
  intros Hm. unfold update_match. rewrite getitem_last_app. cbn [bind].
  now rewrite (mem_in _ _ Hm), removelast_last.
Qed.

(** A resolved pair given alone fills one bucket. *)
Lemma update_single (cls : option doc_cls) (key : string) (v : value)
    (op : option string) (parts : list string) (val : value)
    (bucket : string) (doc : value) :
  key <> "__raw__" ->
  update_resolve cls key v = Ok (op, parts, val) ->
  update_emit op parts val = Ok (bucket, doc) ->
  update cls [(key, v)] = Ok [(bucket, doc)].
Proof.
  intros Hraw Hres Hemit. apply String.eqb_neq in Hraw.
  unfold update. cbn [foldM].
  rewrite (update_pair_resolved _ _ _ _ _ _ _ Hraw Hres), Hemit.
  reflexivity.
Qed.

Lemma update_emit_flat (op : string) (parts : list string) (val : value) :
  In op UPDATE_OPERATORS ->
  (op = "pull" \/ op = "pull_all" ->
   Str.contains "." (Str.join "." parts) = false) ->
  (op = "add_to_set" -> forall l, val <> VList l) ->
  update_emit (Some (canonical op)) parts val
  = Ok (("$" ++ canonical op)%string, VDict [(Str.join "." parts, val)]).
Proof.
  unfold UPDATE_OPERATORS. simpl. intros H Hpull Hset.
  repeat (destruct H as [<-|H];
          [ unfold update_emit; simpl;
            try (rewrite Hpull by tauto; simpl);
            try reflexivity;
            destruct val; try reflexivity;
            now destruct (Hset eq_refl l)
          | ]).
  contradiction.
Qed.

(** X11: without a document class, an update keyword made of an operator
    and a path compiles to one bucket named after the operator's Mongo
    name, holding the dotted path mapped to the value: for every operator
    but [dec], for [pull] and [pull_all] when the dotted path has no dot,
    and for [add_to_set] when the value is not a list. *)
Theorem update_operator_path (key op last : string) (path : list string)
    (v : value) :
  key <> "__raw__" ->
  Str.split key = op :: path ->
  In op UPDATE_OPERATORS -> op <> "dec" ->
  getitem_last path = Ok last ->
  Str.mem last COMPARISON_OPERATORS = false ->
  (op = "pull" \/ op = "pull_all" ->
   Str.contains "." (Str.join "." path) = false) ->
  (op = "add_to_set" -> forall l, v <> VList l) ->
  update None [(key, v)]
  = Ok [(("$" ++ canonical op)%string, VDict [(Str.join "." path, v)])].
Proof.
  intros Hraw Hsplit Hop Hdec Hlast Hmem Hpull Hset.
  apply (update_single None key v (Some (canonical op)) path v);
    [assumption | | now apply update_emit_flat].
  unfold update_resolve.
  rewrite Hsplit, (update_operator_canonical _ _ _ Hop Hdec). cbn [bind].
  now rewrite (update_match_none _ _ Hlast Hmem).
Qed.

Lemma update_operator_path_witness :
  update None [("set_on_insert__profile__0__name", VStr "x")]
  = Ok [("$setOnInsert", VDict [("profile.0.name", VStr "x")])].
Proof.
  apply (update_operator_path "set_on_insert__profile__0__name"
           "set_on_insert" "name" ["profile"; "0"; "name"] (VStr "x"));
    try reflexivity; try discriminate.
  - simpl. tauto.
  - intros [H|H]; discriminate H.
Defined.

(** X12: a comparison operator closing an update key becomes a match on the
    value: [op__path__m=value] compiles to
    [{"$op": {path: {"$" + m: value}}}], under the same conditions on the
    operator (for [pull] on a dotted path see the nested form). *)
Theorem update_match_path (key op m : string) (path : list string) (v : value) :
  key <> "__raw__" ->
  Str.split key = op :: path ++ [m] ->
  In op UPDATE_OPERATORS -> op <> "dec" ->
  In m COMPARISON_OPERATORS ->
  (op = "pull" \/ op = "pull_all" ->
   Str.contains "." (Str.join "." path) = false) ->
  update None [(key, v)]
  = Ok [(("$" ++ canonical op)%string,
         VDict [(Str.join "." path, VDict [(("$" ++ m)%string, v)])])].
Proof.
  intros Hraw Hsplit Hop Hdec Hm Hpull.
  apply (update_single None key v (Some (canonical op)) path
           (VDict [(("$" ++ m)%string, v)]));
    [assumption | | apply update_emit_flat; [assumption..|discriminate]].
  unfold update_resolve.
  rewrite Hsplit, (update_operator_canonical _ _ _ Hop Hdec). cbn [bind].
  now rewrite (update_match_some _ _ Hm).
Qed.

Lemma update_match_path_witness :
  update None [("pull__votes__lt", VInt 1)]
  = Ok [("$pull", VDict [("votes", VDict [("$lt", VInt 1)])])].
Proof.
  apply (update_match_path "pull__votes__lt" "pull" "lt" ["votes"] (VInt 1));
    try reflexivity; try discriminate; simpl; tauto.
Defined.

End SchemalessUpdates.

(* ================================================================== *)
(** * What [update] returns, and what it refuses *)
(* ================================================================== *)

Section UpdateResults.

Lemma split_from_nonempty (s : string) :
  forall acc : string, Str.split_from acc s <> [].
Proof.
  induction s as [|c s IH]; intros acc; simpl; [discriminate|].
  destruct s as [|c' s']; [discriminate|].
  destruct (Ascii.eqb c "_" && Ascii.eqb c' "_"); [discriminate | apply IH].
Qed.

Lemma getitem_last_nonempty {A : Type} (l : list A) :
  l <> [] -> exists x, getitem_last l = Ok x.
Proof.
  intros H. destruct (exists_last H) as [l' [x ->]].
  exists x. apply getitem_last_app.
Qed.

(** A key whose first segment is no update operator never gets past line
    216. *)
Lemma update_pair_without_operator (cls : option doc_cls) (key : string)
    (v : value) (mongo_update : dict) :
  key <> "__raw__" ->
  Str.mem (hd "" (Str.split key)) UPDATE_OPERATORS = false ->
  exists e, update_pair cls mongo_update (key, v) = Raise e
            /\ (cls = None -> e = InvalidQueryError).
Proof.
  intros Hraw Hop. apply String.eqb_neq in Hraw.
  unfold update_pair. rewrite Hraw. unfold update_resolve.
  pose proof (split_from_nonempty key "") as Hne. fold (Str.split key) in Hne.
  destruct (Str.split key) as [|p0 rest] eqn:Hs; [contradiction|].
  cbn [hd] in Hop. unfold update_operator. rewrite Hop. cbn [bind].
  destruct (update_match (p0 :: rest)) as [[m parts]|e] eqn:Hm; cbn [bind].
  - destruct cls as [c|].
    + destruct (update_fields c None parts v) as [[parts' v']|e]; cbn [bind].
      * eexists. split; [reflexivity | discriminate].
      * eexists. split; [reflexivity | discriminate].
    + cbn [bind]. eexists. split; reflexivity.
  - exfalso. unfold update_match in Hm.
    destruct (getitem_last_nonempty (p0 :: rest)) as [x Hx]; [discriminate|].
    rewrite Hx in Hm. cbn [bind] in Hm.
    destruct (Str.mem x COMPARISON_OPERATORS); discriminate.
Qed.

Lemma foldM_raises {S A : Type} (step : S -> A -> result S) (bad : A)
    (l : list A) :
  In bad l ->
  (forall s, exists e, step s bad = Raise e) ->
  forall s, exists e, foldM step l s = Raise e.
Proof.
  intros Hin Hbad. induction l as [|a l IH]; [contradiction|].
  intros s. cbn [foldM].
  destruct Hin as [->|Hin].
  - destruct (Hbad s) as [e ->]. now exists e.
  - destruct (step s a) as [s'|e]; cbn [bind]; [now apply IH | now exists e].
Qed.

(** X13: [update] never returns a document for keywords one of which has
    no update operator as its first segment: whatever the other keywords
    and the document class, the call raises; and such a keyword given alone
    without a document class raises InvalidQueryError. *)
Theorem update_requires_operator (cls : option doc_cls) (key : string)
    (v : value) (kwargs : list (string * value)) :
  key <> "__raw__" ->
  Str.mem (hd "" (Str.split key)) UPDATE_OPERATORS = false ->
  In (key, v) kwargs ->
  (exists e, update cls kwargs = Raise e)
  /\ update None [(key, v)] = Raise InvalidQueryError.
Proof.
  intros Hraw Hop Hin. split.
  - unfold update. apply (foldM_raises _ (key, v)); [assumption|].
    intros s. destruct (update_pair_without_operator cls key v s Hraw Hop)
      as [e [He _]]. now exists e.
  - unfold update. cbn [foldM].
    destruct (update_pair_without_operator None key v [] Hraw Hop)
      as [e [-> He]]. now rewrite He.
Qed.

Lemma update_requires_operator_witness :
  (exists e, update None [("set__a", VInt 1); ("title", VStr "x")] = Raise e)
  /\ update None [("title", VStr "x")] = Raise InvalidQueryError.
Proof.
  apply (update_requires_operator None "title" (VStr "x")
           [("set__a", VInt 1); ("title", VStr "x")]).
  - discriminate.
  - reflexivity.
  - right. now left.
Defined.

Lemma update_operator_is_canonical (segments : list string) (v : value)
    (cop : string) (parts : list string) (v' : value) :
  update_operator segments v = Ok (Some cop, parts, v') ->
  In ("$" ++ cop)%string MONGO_UPDATE_OPERATORS.
Proof.
  unfold update_operator. destruct segments as [|p0 rest]; [discriminate|].
  destruct (Str.mem p0 UPDATE_OPERATORS) eqn:Hm; [|discriminate].
  unfold Str.mem in Hm. apply existsb_exists in Hm.
  destruct Hm as [x [Hin Hx]]. apply String.eqb_eq in Hx. subst x.
  unfold UPDATE_OPERATORS in Hin. simpl in Hin.
  repeat (destruct Hin as [<-|Hin];
          [ simpl; try (destruct (dec_value v); cbn [bind]);
            intros H; try discriminate; injection H as <- _ _; simpl; tauto
          | ]).
  contradiction.
Qed.

Lemma update_resolve_is_canonical (cls : option doc_cls) (key : string)
    (v : value) (cop : string) (parts : list string) (v' : value) :
  update_resolve cls key v = Ok (Some cop, parts, v') ->
  In ("$" ++ cop)%string MONGO_UPDATE_OPERATORS.
Proof.
  unfold update_resolve.
  destruct (update_operator (Str.split key) v) as [[[op0 parts0] v0]|e] eqn:Hop;
    cbn [bind]; [|discriminate].
  destruct (update_match parts0) as [[m parts1]|e]; cbn [bind]; [|discriminate].
  destruct cls as [c|].
  - destruct (update_fields c op0 parts1 v0) as [[parts2 v2]|e]; cbn [bind];
      [|discriminate].
    intros H. injection H as -> _ _.
    now apply (update_operator_is_canonical _ _ _ _ _ Hop).
  - cbn [bind]. intros H. injection H as -> _ _.
    now apply (update_operator_is_canonical _ _ _ _ _ Hop).
Qed.

Lemma nest_reversed_is_dict (parts : list string) (v : value) :
  parts <> [] -> is_dict (nest_reversed parts v) = true.
Proof.
  intros H. rewrite nest_reversed_nest.
  destruct parts; [contradiction | reflexivity].
Qed.

Lemma update_emit_is_dict (op : option string) (parts : list string)
    (v : value) (bucket : string) (doc : value) :
  update_emit op parts v = Ok (bucket, doc) ->
  is_dict doc = true
  /\ exists cop, op = Some cop /\ bucket = ("$" ++ cop)%string.
Proof.
  unfold update_emit. destruct op as [cop|]; [|discriminate].
  destruct (Str.contains "pull" cop && Str.contains "." (Str.join "." parts))
    eqn:Hc.
  - destruct (String.eqb cop "pullAll"); cbn [bind]; [discriminate|].
    intros H. injection H as <- <-. split; [|now exists cop].
    apply nest_reversed_is_dict. intros ->.
    apply andb_true_iff in Hc. destruct Hc as [_ Hc]. discriminate Hc.
  - destruct (String.eqb cop "addToSet"); [destruct v|]; cbn [bind];
      intros H; injection H as <- <-; (split; [reflexivity | now exists cop]).
Qed.

Lemma well_formed_set (mongo_update : dict) (bucket : string) (doc : value) :
  well_formed_update mongo_update ->
  In bucket MONGO_UPDATE_OPERATORS ->
  is_dict doc = true ->
  well_formed_update (Dict.set bucket doc mongo_update).
Proof.
  intros Hwf Hb Hdoc k val. rewrite get_set.
  destruct (String.eqb k bucket) eqn:Ek.
  - apply String.eqb_eq in Ek. subst k. intros H. injection H as <-. now split.
  - apply Hwf.
Qed.

Lemma update_pair_well_formed (cls : option doc_cls) (mongo_update : dict)
    (key : string) (v : value) (d : dict) :
  key <> "__raw__" ->
  well_formed_update mongo_update ->
  update_pair cls mongo_update (key, v) = Ok d ->
  well_formed_update d.
Proof.
  intros Hraw Hwf. apply String.eqb_neq in Hraw.
  unfold update_pair. rewrite Hraw.
  destruct (update_resolve cls key v) as [[[op parts] val]|e] eqn:Hres;
    cbn [bind]; [|discriminate].
  destruct (update_emit op parts val) as [[bucket doc]|e] eqn:Hemit;
    cbn [bind]; [|discriminate].
  destruct (update_emit_is_dict _ _ _ _ _ Hemit) as [Hdoc [cop [-> ->]]].
  pose proof (update_resolve_is_canonical _ _ _ _ _ _ Hres) as Hcan.
  unfold update_merge.
  destruct (Dict.get ("$" ++ cop)%string mongo_update) as [existing|] eqn:Hget.
  - destruct existing; try (intros H; injection H as <-; exact Hwf).
    destruct doc; try discriminate. cbn [dict_update_value bind].
    intros H. injection H as <-. now apply well_formed_set.
  - intros H. injection H as <-. now apply well_formed_set.
Qed.

(** X14: when no keyword is the raw one, every key of the document [update]
    returns is one of the nine Mongo update operators - never a Pythonic
    token such as [$dec] or [$pull_all] - and every bucket is a mapping,
    with or without a document class. *)
Theorem update_buckets_are_canonical (cls : option doc_cls)
    (kwargs : list (string * value)) (d : dict) :
  Forall (fun kv => fst kv <> "__raw__") kwargs ->
  update cls kwargs = Ok d ->
  forall k val, Dict.get k d = Some val ->
                In k MONGO_UPDATE_OPERATORS /\ is_dict val = true.
Proof.
  unfold update. intros Hall.
  assert (Hgen : forall mu, well_formed_update mu ->
                            foldM (update_pair cls) kwargs mu = Ok d ->
                            well_formed_update d).
  { induction Hall as [|[key v] l Hkey _ IH]; intros mu Hwf; cbn [foldM].
    - intros H. injection H as <-. exact Hwf.
    - destruct (update_pair cls mu (key, v)) as [mu'|e] eqn:Hp; cbn [bind];
        [|discriminate].
      apply IH. now apply (update_pair_well_formed cls mu key v). }
  apply Hgen. intros k val H. discriminate H.
Qed.

Lemma update_buckets_are_canonical_witness :
  In "$inc" MONGO_UPDATE_OPERATORS
  /\ is_dict (VDict [("hits", VInt (-1))]) = true.
Proof.
  apply (update_buckets_are_canonical None
           [("dec__hits", VInt 1); ("pull_all__tags", VList [VStr "a"])]
           [("$inc", VDict [("hits", VInt (-1))]);
            ("$pullAll", VDict [("tags", VList [VStr "a"])])]).
  - repeat constructor; discriminate.
  - reflexivity.
  - reflexivity.
Defined.

End UpdateResults.

(* ================================================================== *)
(** * [Document.save]: inserts, and the cached collection handle *)
(* ================================================================== *)

Section SaveFacts.

Import Document.

Variable pk : document -> value.
Variable _delta : document -> dict * dict.
Variable _to_son : document -> dict.
Variable storage : storage_call -> result value.

Lemma get_collection_handle (self : document) (w : world) :
  _get_collection self w
  = (Ok (handle_of self w), mkWorld (Some (handle_of self w)) (calls w)).
Proof.
  unfold _get_collection, handle_of. destruct w as [[c|] cs]; reflexivity.
Qed.

(** X15: the collection handle is looked up once: after [_get_collection]
    the class caches the handle it answered, the recorded calls are
    untouched, and every later lookup - on this or on any other instance of
    the class - answers the same handle and changes nothing. *)
Theorem collection_handle_is_cached (self other : document) (w w' : world)
    (c : string) :
  _get_collection self w = (Ok c, w') ->
  cls_collection w' = Some c
  /\ calls w' = calls w
  /\ _get_collection other w' = (Ok c, w').
Proof.
  rewrite get_collection_handle. intros H. injection H as <- <-.
  repeat split.
Qed.

(** X16: for a document not yet persisted, [save] makes exactly one storage
    call, an insert of the full document.  When the storage answers with an
    identifier and the instance holds its id field locally, the instance
    comes back marked as created, without the local id entry and with the
    identifier under the id's storage name; when the storage fails, the
    failure is what [save] raises; when the local id entry is missing,
    [save] raises KeyError after the insert was sent. *)
Theorem save_inserts_new_document (self : document)
    (write_concern : option dict) (w : world) :
  _created self = false ->
  calls (snd (save pk _delta _to_son storage self write_concern w))
  = calls w ++ [insert_of _to_son self write_concern w]
  /\ (forall oid,
        storage (insert_of _to_son self write_concern w) = Ok oid ->
        Dict.has (id_field self) (_internal_data self) = true ->
        exists self',
          fst (save pk _delta _to_son storage self write_concern w) = Ok self'
          /\ _created self' = true
          /\ Dict.get (db_id_field self) (_db_data self') = Some oid
          /\ Dict.get (id_field self) (_internal_data self') = None)
  /\ (forall e,
        storage (insert_of _to_son self write_concern w) = Raise e ->
        fst (save pk _delta _to_son storage self write_concern w) = Raise e)
  /\ (forall oid,
        storage (insert_of _to_son self write_concern w) = Ok oid ->
        Dict.has (id_field self) (_internal_data self) = false ->
        fst (save pk _delta _to_son storage self write_concern w)
        = Raise KeyError).
Proof.
  intros Hc. unfold save, bindM. rewrite get_collection_handle, Hc.
  unfold call, insert_of. cbn [cls_collection calls].
  destruct (storage (CollectionInsert (handle_of self w) (_to_son self)
                       (default_write_concern write_concern)))
    as [oid|e] eqn:Hst.
  - unfold delitem.
    destruct (Dict.has (id_field self) (_internal_data self)) eqn:Hhas;
      cbn [fst snd calls ret throw].
    + split; [reflexivity|]. split; [|split; intros; discriminate].
      intros oid' Hoid _. injection Hoid as <-.
      eexists. split; [reflexivity|]. cbn [_created _db_data _internal_data].
      split; [reflexivity|]. split; [apply get_set_same | apply get_remove_same].
    + split; [reflexivity|]. split; [intros; discriminate|].
      split; [intros; discriminate | reflexivity].
  - cbn [fst snd calls]. split; [reflexivity|].
    split; [intros; discriminate|].
    split; [|intros; discriminate].
    intros e' He. now injection He as <-.
Qed.

(** X17: a document that [save] returns is marked as created, whichever
    branch ran, so saving it again sends no insert: every call the second
    [save] adds is a collection update. *)
Theorem saved_document_is_not_inserted_again (self self' : document)
    (wc wc' : option dict) (w w' : world) :
  fst (save pk _delta _to_son storage self wc w) = Ok self' ->
  _created self' = true
  /\ exists added,
       calls (snd (save pk _delta _to_son storage self' wc' w'))
       = calls w' ++ added
       /\ Forall (fun c => exists h spec q c', c = CollectionUpdate h spec q c')
                 added.
Proof.
  intros Hsave.
  assert (Hcreated : _created self' = true).
  { revert Hsave. unfold save, bindM. rewrite get_collection_handle.
    destruct (_created self) eqn:Hc.
    - destruct (nonempty (update_query_of _delta self)); unfold call, ret;
        cbn [fst]; try (destruct (storage _); cbn [fst]);
        intros H; try discriminate; injection H as <-; exact Hc.
    - unfold call. destruct (storage _); cbn [fst]; [|discriminate].
      destruct (delitem (id_field self) (_internal_data self));
        unfold ret, throw; cbn [fst]; intros H; try discriminate.
      now injection H as <-. }
  split; [exact Hcreated|].
  unfold save, bindM. rewrite get_collection_handle, Hcreated.
  destruct (nonempty (update_query_of _delta self')).
  - unfold call. cbn [calls cls_collection].
    eexists. split.
    + destruct (storage _); reflexivity.
    + constructor; [|constructor]. now repeat eexists.
  - exists []. split; [now rewrite app_nil_r | constructor].
Qed.

End SaveFacts.

Section SaveExamples.

Import Document.

Lemma collection_handle_is_cached_witness :
  cls_collection (mkWorld (Some "site") []) = Some "site"
  /\ calls (mkWorld (Some "site") []) = calls fresh_world
  /\ _get_collection (site_doc []) (mkWorld (Some "site") [])
     = (Ok "site", mkWorld (Some "site") []).
Proof.
  exact (collection_handle_is_cached new_site (site_doc []) fresh_world
           (mkWorld (Some "site") []) "site" eq_refl).
Defined.

Lemma save_inserts_new_document_witness :
  calls (snd (save stored_pk renamed_delta (fun _ => [("name", VStr "x")])
                   acknowledging new_site None fresh_world))
  = [CollectionInsert "site" [("name", VStr "x")] [("w", VInt 1)]].
Proof.
  exact (proj1 (save_inserts_new_document stored_pk renamed_delta
                  (fun _ => [("name", VStr "x")]) acknowledging new_site None
                  fresh_world eq_refl)).
Defined.

Lemma saved_document_is_not_inserted_again_witness :
  _created (mkDocument "site" "id" "_id" true [] [("_id", VInt 1)]) = true
  /\ exists added,
       calls (snd (save stored_pk renamed_delta (fun _ => [("name", VStr "x")])
                        acknowledging
                        (mkDocument "site" "id" "_id" true [] [("_id", VInt 1)])
                        None fresh_world))
       = calls fresh_world ++ added
       /\ Forall (fun c => exists h spec q c', c = CollectionUpdate h spec q c')
                 added.
Proof.
  exact (saved_document_is_not_inserted_again stored_pk renamed_delta
           (fun _ => [("name", VStr "x")]) acknowledging new_site
           (mkDocument "site" "id" "_id" true [] [("_id", VInt 1)])
           None None fresh_world fresh_world eq_refl).
Defined.

End SaveExamples.

(* ================================================================== *)
(** * [Document.register]: the derived collection name *)
(* ================================================================== *)

Section CollectionNames.

Import DocumentClass.

Lemma lower_char_not_upper (c : ascii) : isupper (lower_char c) = false.
Proof. destruct c as [[] [] [] [] [] [] [] []]; reflexivity. Qed.

Lemma lower_char_underscore (c : ascii) :
  Ascii.eqb (lower_char c) "_" = Ascii.eqb c "_".
Proof. destruct c as [[] [] [] [] [] [] [] []]; reflexivity. Qed.

Lemma lower_has_no_upper (s : string) : has_upper (lower s) = false.
Proof.
  induction s as [|c s IH]; simpl; [reflexivity|].
  now rewrite lower_char_not_upper, IH.
Qed.

Lemma lower_start (s : string) :
  starts_with_underscore (lower s) = starts_with_underscore s.
Proof. destruct s; simpl; [reflexivity | apply lower_char_underscore]. Qed.

Lemma lower_end (s : string) :
  ends_with_underscore (lower s) = ends_with_underscore s.
Proof.
  induction s as [|c s IH]; [reflexivity|].
  destruct s as [|c' s']; simpl in *; [apply lower_char_underscore | exact IH].
Qed.

Lemma lstrip_start (s : string) :
  starts_with_underscore (lstrip_underscores s) = false.
Proof.
  induction s as [|c s IH]; simpl; [reflexivity|].
  destruct (Ascii.eqb c "_") eqn:E; [exact IH | simpl; exact E].
Qed.

Lemma rstrip_end (s : string) :
  ends_with_underscore (rstrip_underscores s) = false.
Proof.
  induction s as [|c s IH]; simpl; [reflexivity|].
  destruct (rstrip_underscores s) as [|r rs].
  - destruct (Ascii.eqb c "_") eqn:E; simpl; [reflexivity | exact E].
  - exact IH.
Qed.

Lemma rstrip_start (s : string) :
  starts_with_underscore s = false ->
  starts_with_underscore (rstrip_underscores s) = false.
Proof.
  destruct s as [|c s]; simpl; [reflexivity|].
  intros E. destruct (rstrip_underscores s); [rewrite E|]; simpl; assumption.
Qed.

Lemma derived_shape (name : string) :
  has_upper (derived_collection name) = false
  /\ starts_with_underscore (derived_collection name) = false
  /\ ends_with_underscore (derived_collection name) = false.
Proof.
  unfold derived_collection, strip_underscores. split; [|split].
  - apply lower_has_no_upper.
  - rewrite lower_start. apply rstrip_start, lstrip_start.
  - rewrite lower_end. apply rstrip_end.
Qed.

(** X18: the collection name [register] derives from a class name has no
    upper-case letter and neither starts nor ends with an underscore. *)
Theorem derived_collection_shape (name : string) :
  has_upper (derived_collection name) = false
  /\ starts_with_underscore (derived_collection name) = false
  /\ ends_with_underscore (derived_collection name) = false.
Proof. exact (derived_shape name). Qed.

Lemma underscore_capitals_plain (s : string) :
  has_upper s = false -> underscore_capitals s = s.
Proof.
  induction s as [|c s IH]; simpl; [reflexivity|].
  intros H. apply orb_false_iff in H. destruct H as [Hc Hs].
  now rewrite Hc, IH.
Qed.

Lemma lower_plain (s : string) : has_upper s = false -> lower s = s.
Proof.
  induction s as [|c s IH]; simpl; [reflexivity|].
  intros H. apply orb_false_iff in H. destruct H as [Hc Hs].
  unfold lower_char. now rewrite Hc, IH.
Qed.

Lemma lstrip_plain (s : string) :
  starts_with_underscore s = false -> lstrip_underscores s = s.
Proof. destruct s; simpl; [reflexivity|]. now intros ->. Qed.

Lemma rstrip_plain (s : string) :
  ends_with_underscore s = false -> rstrip_underscores s = s.
Proof.
  induction s as [|c s IH]; [reflexivity|].
  destruct s as [|c' s'].
  - simpl. now intros ->.
  - intros H. change (ends_with_underscore (String c' s') = false) in H.
    change (rstrip_underscores (String c (String c' s')))
      with (match rstrip_underscores (String c' s') with
            | EmptyString => if Ascii.eqb c "_" then EmptyString
                             else String c EmptyString
            | rest => String c rest
            end).
    now rewrite IH.
Qed.

(** X19: a name that already has the shape of a collection name - no
    upper-case letter, no underscore at either end - is its own derived
    name, so deriving twice is the same as deriving once. *)
Theorem derived_collection_fixed_point (name : string) :
  (has_upper name = false ->
   starts_with_underscore name = false ->
   ends_with_underscore name = false ->
   derived_collection name = name)
  /\ derived_collection (derived_collection name) = derived_collection name.
Proof.
  assert (Hfix : forall n, has_upper n = false ->
                           starts_with_underscore n = false ->
                           ends_with_underscore n = false ->
                           derived_collection n = n).
  { intros n Hu Hs He. unfold derived_collection, strip_underscores.
    now rewrite underscore_capitals_plain, lstrip_plain, rstrip_plain,
      lower_plain. }
  split; [apply Hfix|].
  destruct (derived_shape name) as [Hu [Hs He]].
  now apply Hfix.
Qed.

Lemma derived_collection_fixed_point_witness :
  derived_collection "blog_post" = "blog_post".
Proof.
  exact (proj1 (derived_collection_fixed_point "blog_post")
           eq_refl eq_refl eq_refl).
Defined.

Example derived_blog_post : derived_collection "BlogPost" = "blog_post".
Proof. reflexivity. Qed.

Example derived_acronym : derived_collection "HTTPLog_" = "h_t_t_p_log".
Proof. reflexivity. Qed.

(** X20: [register] is idempotent, keeps a collection name given in [meta],
    gives a class without one the derived name, and always drops the cached
    handle. *)
Theorem register_is_idempotent (cls : doc_class) :
  register (register cls) = register cls
  /\ (forall n, meta_collection cls = Some n -> n <> "" ->
                meta_collection (register cls) = Some n)
  /\ (no_collection (meta_collection cls) = true ->
      meta_collection (register cls) = Some (derived_collection (class_name cls)))
  /\ _collection (register cls) = None.
Proof.
  split; [|split; [|split]].
  - unfold register. cbn [class_name meta_id_field meta_abstract meta_collection
                          class_fields _rename_to_db].
    destruct (no_collection (meta_collection cls)) eqn:Hn.
    + cbn [no_collection].
      now destruct (String.eqb (derived_collection (class_name cls)) "").
    + now rewrite Hn.
  - intros n Hm Hne. unfold register. cbn [meta_collection]. rewrite Hm.
    cbn [no_collection]. apply String.eqb_neq in Hne. now rewrite Hne.
  - intros Hn. unfold register. cbn [meta_collection]. now rewrite Hn.
  - reflexivity.
Qed.

Lemma lookup_app {A : Type} (k : string) (l1 l2 : list (string * A)) :
  lookup k (l1 ++ l2)
  = match lookup k l1 with Some a => Some a | None => lookup k l2 end.
Proof.
  induction l1 as [|[k' a] l1 IH]; simpl; [reflexivity|].
  now destruct (String.eqb k k').
Qed.

(** X21: [_register_default_fields] never replaces a declared [id] field,
    gives a concrete class whose id field is [id] and that declares none an
    [id] stored as [_id], leaves every other declared field as it is, and
    applied twice does what it does once. *)
Theorem default_id_field (cls : doc_class) :
  (forall f, lookup "id" (class_fields cls) = Some f ->
             _register_default_fields cls = cls)
  /\ (meta_id_field cls = "id" -> meta_abstract cls = false ->
      lookup "id" (class_fields cls) = None ->
      lookup "id" (class_fields (_register_default_fields cls))
      = Some object_id_field)
  /\ (forall name f, lookup name (class_fields cls) = Some f ->
                     lookup name (class_fields (_register_default_fields cls))
                     = Some f)
  /\ _register_default_fields (_register_default_fields cls)
     = _register_default_fields cls.
Proof.
  split; [|split; [|split]].
  - intros f Hf. unfold _register_default_fields. rewrite Hf.
    now rewrite andb_false_r.
  - intros Hid Hab Hno. unfold _register_default_fields.
    rewrite Hid, Hab, Hno. cbn [class_fields andb negb String.eqb].
    simpl. now rewrite lookup_app, Hno.
  - intros name f Hf. unfold _register_default_fields.
    destruct (_ && _ && _); [|exact Hf].
    cbn [class_fields]. now rewrite lookup_app, Hf.
  - unfold _register_default_fields at 2.
    destruct (String.eqb (meta_id_field cls) "id"
              && match lookup "id" (class_fields cls) with
                 | Some _ => false
                 | None => true
                 end
              && negb (meta_abstract cls)) eqn:E.
    + unfold _register_default_fields.
      cbn [class_fields meta_id_field meta_abstract].
      rewrite lookup_app.
      replace (match
                 match lookup "id" (class_fields cls) with
                 | Some a => Some a
                 | None => lookup "id" [("id", object_id_field)]
                 end
               with
               | Some _ => false
               | None => true
               end) with false
        by (destruct (lookup "id" (class_fields cls)); reflexivity).
      now rewrite andb_false_r, E.
    + unfold _register_default_fields. now rewrite E.
Qed.

Lemma default_id_field_witness :
  lookup "id" (class_fields
                 (_register_default_fields
                    (mkClass "BlogPost" "id" false None
                             [("title", mkDecl "title" false)] [] None None)))
  = Some object_id_field.
Proof.
  exact (proj1 (proj2 (default_id_field
                         (mkClass "BlogPost" "id" false None
                                  [("title", mkDecl "title" false)] [] None None)))
           eq_refl eq_refl eq_refl).
Defined.

End CollectionNames.

(* ================================================================== *)
(** * Equality and an operator on one path *)
(* ================================================================== *)

Section EqualityAndOperator.

Lemma query_resolve_bare (key last : string) (v : value) :
  getitem_last (without_digits (Str.split key)) = Ok last ->
  Str.mem last MATCH_OPERATORS = false ->
  query_resolve None key v = Ok (None, Str.join "." (Str.split key), v).
Proof.
  intros Hlast Hmem. unfold query_resolve.
  rewrite (query_split_bare _ _ Hlast Hmem). cbn [bind query_operator].
  rewrite reinsert_in_place.
  rewrite <- (app_nil_r (Str.split key)) at 1.
  now rewrite in_place_round_trip by constructor.
Qed.

Lemma not_is_an_operator : Str.mem "not" MATCH_OPERATORS = true.
Proof. reflexivity. Qed.

(** X22: bare equality and a comparison operator on one storage key,
    without a document class.  When the equality keyword sorts first (as it
    does when the operator keyword is the same key with [__op] appended)
    and its value is not a mapping, the result is [$and] over the two
    single-key documents, the operator's first; when the operator keyword
    sorts first, line 110 lets the equality overwrite it and the operator
    is lost. *)
Theorem equality_and_operator_on_one_key (key1 key2 op last1 last2 : string)
    (path2 : list string) (A v : value) :
  key1 <> "__raw__" -> key2 <> "__raw__" ->
  getitem_last (without_digits (Str.split key1)) = Ok last1 ->
  Str.mem last1 MATCH_OPERATORS = false ->
  Str.split key2 = path2 ++ [op] ->
  In op COMPARISON_OPERATORS ->
  getitem_last (without_digits path2) = Ok last2 ->
  last2 <> "not" ->
  Str.join "." path2 = Str.join "." (Str.split key1) ->
  is_dict A = false ->
  (String.leb key1 key2 = true ->
   query None [(key1, A); (key2, v)]
   = Ok [("$and",
          VList [VDict [(Str.join "." (Str.split key1),
                         VDict [(("$" ++ op)%string, v)])];
                 VDict [(Str.join "." (Str.split key1), A)]])])
  /\ (String.leb key1 key2 = false ->
      query None [(key1, A); (key2, v)]
      = Ok [(Str.join "." (Str.split key1), A)]).
Proof.
  intros Hraw1 Hraw2 Hlast1 Hmem Hsplit Hop Hlast2 Hnot Hsame HA.
  pose proof (query_resolve_bare key1 last1 A Hlast1 Hmem) as Hres1.
  assert (Hres2 : query_resolve None key2 v
                  = Ok (Some op, Str.join "." (Str.split key1),
                        wrap ("$" ++ op) v)).
  { rewrite (query_resolve_operator _ _ _ _ _ Hsplit
               (in_match_operators _ (or_introl Hop)) Hlast2 Hnot).
    now rewrite comparison_is_wrapped, Hsame. }
  apply String.eqb_neq in Hraw1, Hraw2.
  set (k := Str.join "." (Str.split key1)) in *.
  split; intros Hle; unfold query; simpl sorted_items; rewrite Hle;
    cbn [foldM].
  - rewrite (query_pair_resolved _ _ _ _ _ _ _ _ Hraw1 Hres1).
    cbn [query_store Dict.get Dict.set bind].
    rewrite (query_pair_resolved _ _ _ _ _ _ _ _ Hraw2 Hres2).
    unfold query_store. cbn [Dict.get]. rewrite String.eqb_refl.
    destruct A; try discriminate HA; cbn [bind merge_append foldM];
      unfold query_fold_and; cbn [Dict.get]; rewrite String.eqb_refl;
      unfold Dict.remove; cbn [filter fst]; rewrite String.eqb_refl;
      reflexivity.
  - rewrite (query_pair_resolved _ _ _ _ _ _ _ _ Hraw2 Hres2).
    cbn [query_store Dict.get Dict.set bind].
    rewrite (query_pair_resolved _ _ _ _ _ _ _ _ Hraw1 Hres1).
    unfold query_store. cbn [Dict.set bind foldM].
    now rewrite String.eqb_refl.
Qed.

Lemma equality_and_operator_on_one_key_witness :
  query None [("a__b", VInt 1); ("a.b__gt", VInt 0)] = Ok [("a.b", VInt 1)].
Proof.
  refine (proj2 (equality_and_operator_on_one_key "a__b" "a.b__gt" "gt" "b"
                   "a.b" ["a.b"] (VInt 1) (VInt 0)
                   _ _ eq_refl eq_refl eq_refl _ eq_refl _ eq_refl eq_refl)
            eq_refl).
  - discriminate.
  - discriminate.
  - simpl. tauto.
  - discriminate.
Defined.

End EqualityAndOperator.

(* ================================================================== *)
(** * With a document class: storage names and prepared values *)
(* ================================================================== *)

Section WithDocumentClass.

Lemma in_place_same_length (path : list string) :
  forall (names tokens : list string),
    List.length names = List.length (without_digits path) ->
    Forall (fun t => Str.isdigit t = false) tokens ->
    in_place (path ++ tokens) names = in_place path names.
Proof.
  induction path as [|seg path IH]; intros names tokens Hlen Htok.
  - destruct names; [|discriminate]. simpl. now apply in_place_tokens.
  - unfold without_digits in *. simpl in *.
    destruct (Str.isdigit seg); simpl in *.
    + f_equal. now apply IH.
    + destruct names as [|n names]; [discriminate|].
      f_equal. apply IH; [now injection Hlen | assumption].
Qed.

Lemma comparison_is_wrapped_for (field : option Field) (op : string)
    (v : value) :
  In op COMPARISON_OPERATORS ->
  query_operator field (Some op) v = Ok (wrap ("$" ++ op) v).
Proof.
  unfold COMPARISON_OPERATORS. simpl.
  intros H. repeat (destruct H as [<-|H]; [reflexivity|]). contradiction.
Qed.

(** The resolution of a path and a comparison operator through a class. *)
Lemma query_resolve_with_class (c : doc_cls) (key : string)
    (path : list string) (op last : string) (fields : list looked_up)
    (f : Field) (v v' : value) :
  Str.split key = path ++ [op] ->
  In op COMPARISON_OPERATORS ->
  getitem_last (without_digits path) = Ok last ->
  last <> "not" ->
  c (without_digits path) = Some fields ->
  getitem_last (cleaned_fields fields) = Ok f ->
  List.length fields = List.length (without_digits path) ->
  (if op_in (Some op) singular_ops
   then Ok (prepare_query_value f (Some op) v)
   else if op_in (Some op) [Some "in"; Some "nin"; Some "all"; Some "near"]
           && negb (is_dict v)
        then bind (iterate v)
               (fun vs => Ok (VList (map (prepare_query_value f (Some op)) vs)))
        else Ok v) = Ok v' ->
  query_resolve (Some c) key v
  = Ok (Some op,
        Str.join "." (in_place path (storage_names (fun s => s) fields)),
        wrap ("$" ++ op) v').
Proof.
  intros Hsplit Hop Hlast Hnot Hc Hf Hlen Hv.
  assert (Hin : In op MATCH_OPERATORS)
    by (apply in_match_operators; now left).
  unfold query_resolve.
  rewrite (query_split_operator _ _ _ _ Hsplit Hin Hlast Hnot). cbn [bind].
  unfold query_fields. rewrite Hc, Hf. cbn [bind]. rewrite Hv. cbn [bind].
  rewrite (comparison_is_wrapped_for _ _ _ Hop). cbn [bind].
  rewrite reinsert_in_place, in_place_same_length;
    [reflexivity | | repeat constructor; now apply operators_not_numeric].
  unfold storage_names. now rewrite length_map.
Qed.

(** X23: with a document class, a path followed by a comparison operator
    compiles to the storage names of the looked-up fields, numeric segments
    in their places, mapped to [{"$" + op: value'}], where [value'] is the
    value prepared by the last field for [ne], [gt], [gte], [lt], [lte];
    the list of the elements prepared one by one for [in], [nin], [all]
    given anything iterable but a mapping; and the value as passed for
    [mod], [size], [exists]. *)
Theorem query_comparison_with_class (c : doc_cls) (key : string)
    (path : list string) (op last : string) (fields : list looked_up)
    (f : Field) (v : value) :
  key <> "__raw__" ->
  Str.split key = path ++ [op] ->
  getitem_last (without_digits path) = Ok last ->
  last <> "not" ->
  c (without_digits path) = Some fields ->
  getitem_last (cleaned_fields fields) = Ok f ->
  List.length fields = List.length (without_digits path) ->
  (In op ["ne"; "gt"; "gte"; "lt"; "lte"] ->
   query (Some c) [(key, v)]
   = Ok [(Str.join "." (in_place path (storage_names (fun s => s) fields)),
          VDict [(("$" ++ op)%string, prepare_query_value f (Some op) v)])])
  /\ (In op ["in"; "nin"; "all"] ->
      forall vs, iterate v = Ok vs -> is_dict v = false ->
      query (Some c) [(key, v)]
      = Ok [(Str.join "." (in_place path (storage_names (fun s => s) fields)),
             VDict [(("$" ++ op)%string,
                     VList (map (prepare_query_value f (Some op)) vs))])])
  /\ (In op ["mod"; "size"; "exists"] ->
      query (Some c) [(key, v)]
      = Ok [(Str.join "." (in_place path (storage_names (fun s => s) fields)),
             VDict [(("$" ++ op)%string, v)])]).
Proof.
  intros Hraw Hsplit Hlast Hnot Hc Hf Hlen.
  split; [|split].
  - intros Hop. apply (query_single _ key v (Some op)); [assumption|].
    apply (query_resolve_with_class c key path op last fields f v);
      try assumption.
    + simpl in Hop. unfold COMPARISON_OPERATORS. simpl. tauto.
    + simpl in Hop.
      repeat (destruct Hop as [<-|Hop]; [reflexivity|]). contradiction.
  - intros Hop vs Hvs Hd. apply (query_single _ key v (Some op)); [assumption|].
    apply (query_resolve_with_class c key path op last fields f v);
      try assumption.
    + simpl in Hop. unfold COMPARISON_OPERATORS. simpl. tauto.
    + simpl in Hop.
      repeat (destruct Hop as [<-|Hop];
              [simpl; rewrite Hd, Hvs; reflexivity|]).
      contradiction.
  - intros Hop. apply (query_single _ key v (Some op)); [assumption|].
    apply (query_resolve_with_class c key path op last fields f v);
      try assumption.
    + simpl in Hop. unfold COMPARISON_OPERATORS. simpl. tauto.
    + simpl in Hop.
      repeat (destruct Hop as [<-|Hop]; [reflexivity|]). contradiction.
Qed.

Lemma query_comparison_with_class_witness :
  query (Some blog_cls) [("comments__2__votes__gt", VInt 3)]
  = Ok [("c.2.v", VDict [("$gt", VTuple [VStr "prepared"; VInt 3])])].
Proof.
  refine (proj1 (query_comparison_with_class blog_cls "comments__2__votes__gt"
                   ["comments"; "2"; "votes"] "gt" "votes"
                   [LField (marking_field "c"); LField (marking_field "v")]
                   (marking_field "v") (VInt 3)
                   _ eq_refl eq_refl _ eq_refl eq_refl eq_refl) _).
  - discriminate.
  - discriminate.
  - simpl. tauto.
Defined.

(** X24: with a document class, an update keyword compiles to the bucket of
    its operator holding the storage names of the looked-up fields joined by
    dots, a plain segment [S] turned into the positional [$].  For [set] and
    [push] the value is prepared by the last field, unless it is None and
    the field is not required; for [unset], [inc], [pop] and [set_on_insert]
    the value is stored as passed. *)
Theorem update_with_class (c : doc_cls) (key op last : string)
    (names : list string) (fields : list looked_up) (f : Field) (v : value) :
  key <> "__raw__" ->
  Str.split key = op :: names ->
  getitem_last names = Ok last ->
  Str.mem last COMPARISON_OPERATORS = false ->
  c names = Some fields ->
  getitem_last (cleaned_fields fields) = Ok f ->
  (In op ["set"; "push"] ->
   update (Some c) [(key, v)]
   = Ok [(("$" ++ op)%string,
          VDict [(Str.join "."
                    (storage_names (fun s => if String.eqb s "S" then "$" else s)
                                   fields),
                  if required f || negb (is_none v)
                  then prepare_query_value f (Some op) v else v)])])
  /\ (In op ["unset"; "inc"; "pop"; "set_on_insert"] ->
      update (Some c) [(key, v)]
      = Ok [(("$" ++ canonical op)%string,
             VDict [(Str.join "."
                       (storage_names
                          (fun s => if String.eqb s "S" then "$" else s) fields),
                     v)])]).
Proof.
  intros Hraw Hsplit Hlast Hmem Hc Hf.
  assert (Hres : forall v',
            In op UPDATE_OPERATORS -> op <> "dec" ->
            (if op_in (Some (canonical op))
                      [None; Some "set"; Some "push"; Some "pull"]
             then if required f || negb (is_none v)
                  then Ok (prepare_query_value f (Some (canonical op)) v)
                  else Ok v
             else if op_in (Some (canonical op)) [Some "pushAll"; Some "pullAll"]
                  then bind (iterate v)
                         (fun vs => Ok (VList (map (prepare_query_value f (Some (canonical op))) vs)))
                  else if op_in (Some (canonical op)) [Some "addToSet"]
                       then match v with
                            | VList vs | VTuple vs | VSet vs =>
                                Ok (VList (map (prepare_query_value f (Some (canonical op))) vs))
                            | _ => if required f || negb (is_none v)
                                   then Ok (prepare_query_value f (Some (canonical op)) v)
                                   else Ok v
                            end
                       else Ok v) = Ok v' ->
            update_resolve (Some c) key v
            = Ok (Some (canonical op),
                  storage_names (fun s => if String.eqb s "S" then "$" else s)
                                fields, v')).
  { intros v' Hop Hdec Hv. unfold update_resolve.
    rewrite Hsplit, (update_operator_canonical _ _ _ Hop Hdec). cbn [bind].
    rewrite (update_match_none _ _ Hlast Hmem). cbn [bind].
    unfold update_fields. rewrite Hc, Hf. cbn [bind]. now rewrite Hv. }
  split; intros Hop; simpl in Hop.
  - repeat (destruct Hop as [<-|Hop];
            [ match goal with
              | |- _ = Ok [(_, VDict [(_, ?val)])] =>
                  eapply (update_single (Some c) key v _ _ val)
              end;
              [ assumption
              | apply Hres;
                [ unfold UPDATE_OPERATORS; simpl; tauto
                | discriminate
                | simpl; now destruct (required f || negb (is_none v)) ]
              | reflexivity ]
            | ]).
    contradiction.
  - repeat (destruct Hop as [<-|Hop];
            [ eapply (update_single (Some c) key v _ _ v);
              [ assumption
              | apply Hres;
                [ unfold UPDATE_OPERATORS; simpl; tauto
                | discriminate
                | reflexivity ]
              | reflexivity ]
            | ]).
    contradiction.
Qed.

Lemma update_with_class_witness :
  update (Some blog_cls) [("set__comments__S__votes", VInt 4)]
  = Ok [("$set", VDict [("c.$.v", VTuple [VStr "prepared"; VInt 4])])].
Proof.
  refine (proj1 (update_with_class blog_cls "set__comments__S__votes" "set"
                   "votes" ["comments"; "S"; "votes"]
                   [LField (marking_field "c"); LName "S";
                    LField (marking_field "v")]
                   (marking_field "v") (VInt 4)
                   _ eq_refl eq_refl eq_refl eq_refl eq_refl) _).
  - discriminate.
  - simpl. tauto.
Defined.

End WithDocumentClass.

(* ================================================================== *)
(** * Two operators on one storage key *)
(* ================================================================== *)

Section TwoOperators.

Lemma eqb_dollar (a b : string) :
  String.eqb ("$" ++ a) ("$" ++ b) = String.eqb a b.
Proof. reflexivity. Qed.

Lemma comparison_is_not_max_distance (op : string) :
  In op COMPARISON_OPERATORS ->
  String.eqb "$maxDistance" ("$" ++ op) = false.
Proof.
  unfold COMPARISON_OPERATORS. simpl.
  intros H. repeat (destruct H as [<-|H]; [reflexivity|]). contradiction.
Qed.

Lemma store_second_operator (k a b : string) (va vb : value)
    (merge_query : merge_dict) :
  In a COMPARISON_OPERATORS -> In b COMPARISON_OPERATORS -> a <> b ->
  query_store [(k, wrap ("$" ++ a) va)] merge_query (Some b) k
              (wrap ("$" ++ b) vb)
  = Ok ([(k, VDict [(("$" ++ a)%string, va); (("$" ++ b)%string, vb)])],
        merge_query).
Proof.
  intros Ha Hb Hab. unfold query_store, wrap. cbn [Dict.get].
  rewrite String.eqb_refl. cbn [dict_update_value bind].
  unfold Dict.update. cbn [fold_left fst snd Dict.set].
  rewrite eqb_dollar.
  assert (Hba : String.eqb b a = false)
    by (apply String.eqb_neq; congruence).
  rewrite Hba. unfold maxdistance_last. cbn [Dict.get].
  rewrite (comparison_is_not_max_distance _ Ha),
    (comparison_is_not_max_distance _ Hb).
  cbn [Dict.set]. now rewrite String.eqb_refl.
Qed.

(** X26: two different comparison operators on one storage key, without a
    document class, compile to one operator document under that key,
    holding exactly the two operators with their values, whichever of the
    two keywords is given first.  (The operator document is a plain
    dictionary: the order of the two operators in it is not determined.) *)
Theorem two_operators_on_one_key (key1 key2 op1 op2 last1 last2 : string)
    (path1 path2 : list string) (v1 v2 : value) :
  key1 <> "__raw__" -> key2 <> "__raw__" ->
  Str.split key1 = path1 ++ [op1] -> In op1 COMPARISON_OPERATORS ->
  getitem_last (without_digits path1) = Ok last1 -> last1 <> "not" ->
  Str.split key2 = path2 ++ [op2] -> In op2 COMPARISON_OPERATORS ->
  getitem_last (without_digits path2) = Ok last2 -> last2 <> "not" ->
  Str.join "." path2 = Str.join "." path1 ->
  op1 <> op2 ->
  exists operators : dict,
    query None [(key1, v1); (key2, v2)]
    = Ok [(Str.join "." path1, VDict operators)]
    /\ same_mapping operators
                    [(("$" ++ op1)%string, v1); (("$" ++ op2)%string, v2)].
Proof.
  intros Hraw1 Hraw2 Hs1 Hop1 Hl1 Hn1 Hs2 Hop2 Hl2 Hn2 Hsame Hne.
  assert (Hres1 : query_resolve None key1 v1
                  = Ok (Some op1, Str.join "." path1, wrap ("$" ++ op1) v1)).
  { rewrite (query_resolve_operator _ _ _ _ _ Hs1
               (in_match_operators _ (or_introl Hop1)) Hl1 Hn1).
    now rewrite comparison_is_wrapped. }
  assert (Hres2 : query_resolve None key2 v2
                  = Ok (Some op2, Str.join "." path1, wrap ("$" ++ op2) v2)).
  { rewrite (query_resolve_operator _ _ _ _ _ Hs2
               (in_match_operators _ (or_introl Hop2)) Hl2 Hn2).
    now rewrite comparison_is_wrapped, Hsame. }
  apply String.eqb_neq in Hraw1, Hraw2.
  set (k := Str.join "." path1) in *.
  destruct (String.leb key1 key2) eqn:Hle.
  - exists [(("$" ++ op1)%string, v1); (("$" ++ op2)%string, v2)].
    split; [|intro x; reflexivity].
    unfold query; simpl sorted_items; rewrite Hle; cbn [foldM].
    rewrite (query_pair_resolved _ _ _ _ _ _ _ _ Hraw1 Hres1).
    cbn [query_store Dict.get Dict.set bind].
    rewrite (query_pair_resolved _ _ _ _ _ _ _ _ Hraw2 Hres2).
    now rewrite store_second_operator.
  - exists [(("$" ++ op2)%string, v2); (("$" ++ op1)%string, v1)]. split.
    + unfold query; simpl sorted_items; rewrite Hle; cbn [foldM].
      rewrite (query_pair_resolved _ _ _ _ _ _ _ _ Hraw2 Hres2).
      cbn [query_store Dict.get Dict.set bind].
      rewrite (query_pair_resolved _ _ _ _ _ _ _ _ Hraw1 Hres1).
      rewrite store_second_operator; [reflexivity | assumption..|congruence].
    + intro x. cbn [Dict.get].
      destruct (String.eqb x ("$" ++ op2)) eqn:E2;
        destruct (String.eqb x ("$" ++ op1)) eqn:E1; try reflexivity.
      apply String.eqb_eq in E1, E2. rewrite E2 in E1.
      injection E1 as E. now elim Hne.
Qed.

Lemma two_operators_on_one_key_witness :
  exists operators : dict,
    query None [("age__lt", VInt 10); ("age__gt", VInt 1)]
    = Ok [("age", VDict operators)]
    /\ same_mapping operators [("$lt", VInt 10); ("$gt", VInt 1)].
Proof.
  refine (two_operators_on_one_key "age__lt" "age__gt" "lt" "gt"
            "age" "age" ["age"] ["age"] (VInt 10) (VInt 1)
            _ _ eq_refl _ eq_refl _ eq_refl _ eq_refl _ eq_refl _);
    try discriminate; simpl; tauto.
Defined.

End TwoOperators.

(* ================================================================== *)
(** * [Document.reload], [Document.delete], and a document with a key *)
(* ================================================================== *)

Section LifecycleFacts.

Variable pk : Document.document -> value.
Variable find_one : string -> dict -> result (option dict).
Variable qs_delete : string -> dict -> dict -> Lifecycle.delete_answer.
Variable storage : Document.storage_call -> result value.

(** X27: [reload] makes exactly one storage call, a [find_one] on the
    document's own key.  When nothing is found it raises OperationError;
    when a document is found the instance takes it as its stored data,
    forgets every local value, and is marked created and not lazy, whatever
    it held before. *)
Theorem reload_replaces_the_instance (self : Lifecycle.instance)
    (w : Lifecycle.world) :
  Lifecycle.calls (snd (Lifecycle.reload pk find_one self w))
  = Lifecycle.calls w
    ++ [Lifecycle.FindOne (Lifecycle.handle_of self w)
          (Document._db_object_key pk (Lifecycle.document self))]
  /\ (find_one (Lifecycle.handle_of self w)
               (Document._db_object_key pk (Lifecycle.document self)) = Ok None ->
      fst (Lifecycle.reload pk find_one self w) = Raise OperationError)
  /\ (forall son,
        find_one (Lifecycle.handle_of self w)
                 (Document._db_object_key pk (Lifecycle.document self))
        = Ok (Some son) ->
        exists self',
          fst (Lifecycle.reload pk find_one self w) = Ok self'
          /\ Document._db_data (Lifecycle.document self') = son
          /\ Document._internal_data (Lifecycle.document self') = []
          /\ Document._created (Lifecycle.document self') = true
          /\ Lifecycle._lazy self' = false).
Proof.
  unfold Lifecycle.reload, Lifecycle._get_collection, Lifecycle.handle_of.
  destruct (Lifecycle.cls_collection w) as [c|];
    cbn [Lifecycle.record_call Lifecycle.calls Lifecycle.cls_collection];
    match goal with
    | |- context [find_one ?h ?spec] => destruct (find_one h spec) as [[son|]|e]
    end; cbn [fst snd Lifecycle.calls];
    (split; [reflexivity|]); (split; [intros H; try discriminate; reflexivity|]);
    intros son' H; try discriminate; injection H as <-;
    eexists; repeat split.
Qed.

(** X28: [delete] has no guard on the primary key: it always makes exactly
    one storage call, a delete filtered by [pk] (also when the key is
    unset) with the write concern [{w: 1}] unless a non-empty one is
    given.  The driver's OperationFailure is raised as OperationError, any
    other exception as it is. *)
Theorem delete_sends_one_delete (self : Lifecycle.instance)
    (write_concern : option dict) (w : Lifecycle.world) :
  Lifecycle.calls (snd (Lifecycle.delete pk qs_delete self write_concern w))
  = Lifecycle.calls w
    ++ [Lifecycle.QuerySetDelete (Lifecycle.handle_of self w)
          [("pk", pk (Lifecycle.document self))]
          (Document.default_write_concern write_concern)]
  /\ fst (Lifecycle.delete pk qs_delete self write_concern w)
     = match qs_delete (Lifecycle.handle_of self w) [("pk", pk (Lifecycle.document self))]
                       (Document.default_write_concern write_concern) with
       | Lifecycle.Deleted => Ok tt
       | Lifecycle.OperationFailure => Raise OperationError
       | Lifecycle.OtherFailure e => Raise e
       end.
Proof.
  unfold Lifecycle.delete, Lifecycle._get_collection, Lifecycle.handle_of,
    Document._object_key.
  destruct (Lifecycle.cls_collection w) as [c|];
    cbn [Lifecycle.record_call Lifecycle.calls Lifecycle.cls_collection];
    match goal with
    | |- context [qs_delete ?h ?f ?c] => destruct (qs_delete h f c)
    end; split; reflexivity.
Qed.

(** X29: on a document whose primary key is truthy, [update] makes exactly
    one storage call, an [update_one] through the query set filtered by
    [pk] and carrying the keyword arguments as passed, and returns what the
    storage answers; [to_dbref] returns the collection name with the key
    and touches nothing. *)
Theorem document_with_key (self : Document.document)
    (kwargs : list (string * value)) (w : Document.world) :
  truthy (pk self) = true ->
  Document.calls (snd (Document.update pk storage self kwargs w))
  = Document.calls w
    ++ [Document.QuerySetUpdateOne (Document.handle_of self w)
          [("pk", pk self)] kwargs]
  /\ fst (Document.update pk storage self kwargs w)
     = storage (Document.QuerySetUpdateOne (Document.handle_of self w)
                  [("pk", pk self)] kwargs)
  /\ Document.to_dbref pk self w
     = (Ok (Document.collection_name self, pk self), w).
Proof.
  intros Hpk. unfold Document.update, Document.to_dbref. rewrite Hpk.
  cbn [negb]. unfold Document.bindM, Document._get_collection,
    Document.handle_of, Document.call, Document._object_key, Document.ret.
  destruct (Document.cls_collection w) as [c|]; now repeat split.
Qed.

End LifecycleFacts.

Section LifecycleExamples.

Lemma reload_replaces_the_instance_witness :
  fst (Lifecycle.reload stored_pk nothing_found
         (site_instance [("_id", VInt 7)]) (Lifecycle.mkWorld None []))
  = Raise OperationError.
Proof.
  exact (proj1 (proj2 (reload_replaces_the_instance stored_pk nothing_found
                         (site_instance [("_id", VInt 7)])
                         (Lifecycle.mkWorld None []))) eq_refl).
Defined.

Lemma delete_sends_one_delete_witness :
  Lifecycle.calls (snd (Lifecycle.delete stored_pk failing_delete
                          (site_instance []) None (Lifecycle.mkWorld None [])))
  = [Lifecycle.QuerySetDelete "site" [("pk", VNone)] [("w", VInt 1)]]
  /\ fst (Lifecycle.delete stored_pk failing_delete (site_instance []) None
            (Lifecycle.mkWorld None []))
     = Raise OperationError.
Proof.
  exact (delete_sends_one_delete stored_pk failing_delete (site_instance [])
           None (Lifecycle.mkWorld None [])).
Defined.

Lemma document_with_key_witness :
  Document.calls (snd (Document.update stored_pk acknowledging
                         (site_doc [("_id", VInt 7)]) [("inc__hits", VInt 1)]
                         fresh_world))
  = [Document.QuerySetUpdateOne "site" [("pk", VInt 7)] [("inc__hits", VInt 1)]]
  /\ fst (Document.update stored_pk acknowledging (site_doc [("_id", VInt 7)])
            [("inc__hits", VInt 1)] fresh_world)
     = Ok (VInt 1)
  /\ Document.to_dbref stored_pk (site_doc [("_id", VInt 7)]) fresh_world
     = (Ok ("site", VInt 7), fresh_world).
Proof.
  exact (document_with_key stored_pk acknowledging (site_doc [("_id", VInt 7)])
           [("inc__hits", VInt 1)] fresh_world eq_refl).
Defined.

End LifecycleExamples.
